(** * MyCoin: chain state and DPoS consensus engine

    A shallow embedding of [src/core/blockchain.js] (class [Blockchain]),
    [src/consensus/dpos.js] (class [DPoSConsensus]) and the block
    production loop of [src/index.js], with the properties of the
    engine's specification stated over it.

    The JavaScript objects handled by the engine (blocks, transactions,
    candidate chains) are duck-typed: the code tests field presence with
    [!x], field types with [typeof], and identity with [JSON.stringify].
    The embedding therefore keeps them as JavaScript values, and gives the
    few run-time operations the engine uses on them ([typeof], truthiness,
    [===], [<=], [+], [JSON.stringify], SHA-256). *)

From Stdlib Require Import List ZArith String Ascii Bool Lia.
From Stdlib Require Import DecimalString QArith Qround Qpower Permutation Sorted.
Import ListNotations.

#[local] Set Warnings "-register-all".
#[local] Open Scope string_scope.
#[local] Open Scope Z_scope.

(* ================================================================== *)
(** ** JavaScript values *)
(* ================================================================== *)

Module JS.

(** Numbers.  The engine's numbers are block indices, chain lengths,
    millisecond timestamps, stakes and amounts; they are modelled as
    exact integers, with [NaN] for the result of a failed conversion. *)
Inductive number : Type :=
| NaN
| Num (z : Z).

(** Values.  An object is the list of its own enumerable properties in
    enumeration order; an object is identified with its contents. *)
Inductive value : Type :=
| VUndefined
| VNull
| VBool (b : bool)
| VNumber (n : number)
| VString (s : string)
| VArray (elems : list value)
| VObject (props : list (string * value)).

Definition obj : Type := list (string * value).

Definition VNum (z : Z) : value := VNumber (Num z).

(** Errors that a call can throw. *)
Inductive exn : Type :=
| Error (message : string)
| TypeError.

(** [typeof v] *)
Definition typeof (v : value) : string :=
  match v with
  | VUndefined => "undefined"
  | VNull => "object"
  | VBool _ => "boolean"
  | VNumber _ => "number"
  | VString _ => "string"
  | VArray _ => "object"
  | VObject _ => "object"
  end.

(** [ToBoolean v]: what [!v] and [v || w] test. *)
Definition truthy (v : value) : bool :=
  match v with
  | VUndefined | VNull => false
  | VBool b => b
  | VNumber NaN => false
  | VNumber (Num z) => negb (z =? 0)
  | VString s => negb (s =? "")%string
  | VArray _ | VObject _ => true
  end.

(** [o.k]: the value of property [k], [undefined] when absent. *)
Fixpoint get (o : obj) (k : string) : value :=
  match o with
  | [] => VUndefined
  | (k', v) :: rest => if (k' =? k)%string then v else get rest k
  end.

Fixpoint has (o : obj) (k : string) : bool :=
  match o with
  | [] => false
  | (k', _) :: rest => (k' =? k)%string || has rest k
  end.

Fixpoint replace (o : obj) (k : string) (v : value) : obj :=
  match o with
  | [] => []
  | (k', v') :: rest =>
      if (k' =? k)%string then (k', v) :: rest else (k', v') :: replace rest k v
  end.

(** [o.k = v]: an existing property keeps its place, a new one is added
    last. *)
Definition set (o : obj) (k : string) (v : value) : obj :=
  if has o k then replace o k v else (o ++ [(k, v)])%list.

(** Structural equality of values. *)
Fixpoint value_eqb (a b : value) {struct a} : bool :=
  match a, b with
  | VUndefined, VUndefined => true
  | VNull, VNull => true
  | VBool x, VBool y => Bool.eqb x y
  | VNumber NaN, VNumber NaN => true
  | VNumber (Num x), VNumber (Num y) => x =? y
  | VString x, VString y => (x =? y)%string
  | VArray l1, VArray l2 =>
      (fix go (l1 l2 : list value) {struct l1} : bool :=
         match l1, l2 with
         | [], [] => true
         | x :: xs, y :: ys => value_eqb x y && go xs ys
         | _, _ => false
         end) l1 l2
  | VObject p1, VObject p2 =>
      (fix go (p1 p2 : list (string * value)) {struct p1} : bool :=
         match p1, p2 with
         | [], [] => true
         | (k1, x) :: xs, (k2, y) :: ys =>
             (k1 =? k2)%string && value_eqb x y && go xs ys
         | _, _ => false
         end) p1 p2
  | _, _ => false
  end.

(** [a === b]: equal type and equal value; [NaN] is unequal to itself. *)
Definition strict_eq (a b : value) : bool :=
  match a with
  | VNumber NaN => false
  | _ => value_eqb a b
  end.

(** SameValueZero, the comparison of [Array.prototype.includes]. *)
Definition same_value_zero (a b : value) : bool := value_eqb a b.

(** [xs.includes(x)] *)
Definition includes (xs : list value) (x : value) : bool :=
  existsb (fun y => same_value_zero y x) xs.

(** Decimal form of an integer, as [Number.prototype.toString] prints an
    integer below 10^21. *)
Definition decimal (z : Z) : string := NilZero.string_of_int (Z.to_int z).

Definition number_toString (n : number) : string :=
  match n with
  | NaN => "NaN"
  | Num z => decimal z
  end.

(** [String(v)] *)
Fixpoint ToString (v : value) : string :=
  match v with
  | VUndefined => "undefined"
  | VNull => "null"
  | VBool true => "true"
  | VBool false => "false"
  | VNumber n => number_toString n
  | VString s => s
  | VArray l =>
      (fix join (l : list value) : string :=
         match l with
         | [] => ""
         | e :: rest =>
             let s := match e with
                      | VUndefined | VNull => ""
                      | _ => ToString e
                      end in
             match rest with
             | [] => s
             | _ => s ++ "," ++ join rest
             end
         end) l
  | VObject _ => "[object Object]"
  end.

(** White space that [StringToNumber] strips. *)
Definition is_space (c : ascii) : bool :=
  let n := nat_of_ascii c in
  ((9 <=? n) && (n <=? 13))%nat || (n =? 32)%nat.

Fixpoint trim_left (s : string) : string :=
  match s with
  | String c rest => if is_space c then trim_left rest else s
  | EmptyString => EmptyString
  end.

Fixpoint rev_string (s acc : string) : string :=
  match s with
  | EmptyString => acc
  | String c rest => rev_string rest (String c acc)
  end.

Definition trim (s : string) : string :=
  rev_string (trim_left (rev_string (trim_left s) "")) "".

Definition digit_of (c : ascii) : option Z :=
  let n := nat_of_ascii c in
  if ((48 <=? n) && (n <=? 57))%nat then Some (Z.of_nat n - 48) else None.

Fixpoint digits (s : string) (acc : Z) : option Z :=
  match s with
  | EmptyString => Some acc
  | String c rest =>
      match digit_of c with
      | Some d => digits rest (10 * acc + d)
      | None => None
      end
  end.

Definition unsigned_literal (s : string) : number :=
  match s with
  | EmptyString => NaN
  | _ => match digits s 0 with Some z => Num z | None => NaN end
  end.

(** [Number(s)] on the integer literals: optional white space, an optional
    sign and decimal digits; the empty string is [0].  Any other string
    converts to [NaN] here. *)
Definition StringToNumber (s : string) : number :=
  match trim s with
  | EmptyString => Num 0
  | String "-" rest =>
      match unsigned_literal rest with Num z => Num (- z) | NaN => NaN end
  | String "+" rest => unsigned_literal rest
  | t => unsigned_literal t
  end.

(** [Number(v)] *)
Definition ToNumber (v : value) : number :=
  match v with
  | VUndefined => NaN
  | VNull => Num 0
  | VBool true => Num 1
  | VBool false => Num 0
  | VNumber n => n
  | VString s => StringToNumber s
  | VArray _ | VObject _ => StringToNumber (ToString v)
  end.

(** [a <= b], [a < b], [a > b] where [b] is a number: false on [NaN]. *)
Definition js_le (a : value) (b : Z) : bool :=
  match ToNumber a with
  | NaN => false
  | Num z => z <=? b
  end.

Definition num_sub (a b : number) : number :=
  match a, b with
  | Num x, Num y => Num (x - y)
  | _, _ => NaN
  end.

(** [a - b] *)
Definition js_sub (a b : value) : number := num_sub (ToNumber a) (ToNumber b).

(** [a + b]: concatenation when either operand is (or converts to) a
    string, numeric addition otherwise. *)
Definition js_add (a b : value) : value :=
  let stringy v :=
    match v with
    | VString _ | VArray _ | VObject _ => true
    | _ => false
    end in
  if stringy a || stringy b then VString (ToString a ++ ToString b)
  else match ToNumber a, ToNumber b with
       | Num x, Num y => VNum (x + y)
       | _, _ => VNumber NaN
       end.

(** *** [JSON.stringify] *)

Definition hex_digit (n : nat) : ascii :=
  ascii_of_nat (if (n <? 10)%nat then 48 + n else 87 + n).

(** One code unit inside a JSON string literal. *)
Definition dquote : string := String (ascii_of_nat 34) "".

Definition quote_char (c : ascii) : string :=
  let n := nat_of_ascii c in
  if (n =? 34)%nat then "\" ++ dquote
  else if (n =? 92)%nat then "\\"
  else if (n =? 8)%nat then "\b"
  else if (n =? 9)%nat then "\t"
  else if (n =? 10)%nat then "\n"
  else if (n =? 12)%nat then "\f"
  else if (n =? 13)%nat then "\r"
  else if (n <? 32)%nat then
    "\u00" ++ String (hex_digit (n / 16)) (String (hex_digit (n mod 16)) "")
  else String c "".

Fixpoint quote_body (s : string) : string :=
  match s with
  | EmptyString => ""
  | String c rest => quote_char c ++ quote_body rest
  end.

Definition quote (s : string) : string := dquote ++ quote_body s ++ dquote.

(** [JSON.stringify(v)]; [None] is the result [undefined]. *)
Fixpoint JSON_stringify (v : value) : option string :=
  match v with
  | VUndefined => None
  | VNull => Some "null"
  | VBool true => Some "true"
  | VBool false => Some "false"
  | VNumber NaN => Some "null"
  | VNumber (Num z) => Some (decimal z)
  | VString s => Some (quote s)
  | VArray l =>
      Some ("[" ++
        (fix elems (l : list value) : string :=
           match l with
           | [] => ""
           | e :: rest =>
               let s := match JSON_stringify e with
                        | Some s => s
                        | None => "null"
                        end in
               match rest with
               | [] => s
               | _ => s ++ "," ++ elems rest
               end
           end) l ++ "]")
  | VObject ps =>
      Some ("{" ++
        (fix members (ps : list (string * value)) (first : bool) : string :=
           match ps with
           | [] => ""
           | (k, e) :: rest =>
               match JSON_stringify e with
               | Some s =>
                   (if first then "" else ",") ++ quote k ++ ":" ++ s
                     ++ members rest false
               | None => members rest first
               end
           end) ps true ++ "}")
  end.

End JS.

(* ================================================================== *)
(** ** SHA-256 (FIPS 180-4), as [crypto.createHash('sha256')] computes it *)
(* ================================================================== *)

Module SHA256.

Definition w32 (x : Z) : Z := x mod 2 ^ 32.

Definition add32 (x y : Z) : Z := w32 (x + y).

Definition rotr (n x : Z) : Z :=
  Z.lor (Z.shiftr x n) (w32 (Z.shiftl x (32 - n))).

Definition not32 (x : Z) : Z := Z.lxor x 0xffffffff.

Definition Ch (x y z : Z) : Z := Z.lxor (Z.land x y) (Z.land (not32 x) z).

Definition Maj (x y z : Z) : Z :=
  Z.lxor (Z.lxor (Z.land x y) (Z.land x z)) (Z.land y z).

Definition Sigma0 (x : Z) : Z :=
  Z.lxor (Z.lxor (rotr 2 x) (rotr 13 x)) (rotr 22 x).

Definition Sigma1 (x : Z) : Z :=
  Z.lxor (Z.lxor (rotr 6 x) (rotr 11 x)) (rotr 25 x).

Definition sigma0 (x : Z) : Z :=
  Z.lxor (Z.lxor (rotr 7 x) (rotr 18 x)) (Z.shiftr x 3).

Definition sigma1 (x : Z) : Z :=
  Z.lxor (Z.lxor (rotr 17 x) (rotr 19 x)) (Z.shiftr x 10).

(** The first [count] primes from [n] on, by trial division. *)
Fixpoint primes (fuel : nat) (n : Z) (count : nat) (found : list Z) : list Z :=
  match fuel, count with
  | S fuel', S count' =>
      if forallb (fun p => negb (n mod p =? 0)) found
      then primes fuel' (n + 1) count' (n :: found)
      else primes fuel' (n + 1) count found
  | _, _ => rev found
  end.

(** Integer cube root of [x] between [lo] and [hi], by bisection. *)
Fixpoint cube_root (fuel : nat) (lo hi x : Z) : Z :=
  match fuel with
  | O => lo
  | S fuel' =>
      let mid := (lo + hi + 1) / 2 in
      if mid * mid * mid <=? x then cube_root fuel' mid hi x
      else cube_root fuel' lo (mid - 1) x
  end.

(** The round constants: the first 32 bits of the fractional parts of the
    cube roots of the first 64 primes. *)
Definition K : list Z :=
  Eval vm_compute in
    map (fun p => w32 (cube_root 40 0 (2 ^ 36) (p * 2 ^ 96)))
        (primes 400 2 64 []).

(** The initial hash value: the first 32 bits of the fractional parts of
    the square roots of the first 8 primes. *)
Definition H0 : list Z :=
  Eval vm_compute in
    map (fun p => w32 (Z.sqrt (p * 2 ^ 64))) (primes 400 2 8 []).

(** The message followed by the bit 1, zero bytes up to 56 modulo 64, and
    the bit length on eight bytes. *)
Definition pad (msg : list Z) : list Z :=
  let len := Z.of_nat (List.length msg) in
  let zeros := Z.to_nat ((55 - len) mod 64) in
  let bits := 8 * len in
  (msg ++ [0x80] ++ repeat 0 zeros
       ++ map (fun i => Z.shiftr bits (8 * (7 - Z.of_nat i)) mod 256) (seq 0 8))%list.

(** Big-endian 32-bit words of a byte sequence. *)
Fixpoint words (bytes : list Z) (fuel : nat) : list Z :=
  match fuel, bytes with
  | S fuel', b0 :: b1 :: b2 :: b3 :: rest =>
      (((b0 * 256 + b1) * 256 + b2) * 256 + b3) :: words rest fuel'
  | _, _ => []
  end.

(** Message schedule, most recent word first: [W_t] from the head. *)
Fixpoint schedule (n : nat) (w : list Z) : list Z :=
  match n with
  | O => w
  | S n' =>
      let t := add32 (add32 (sigma1 (nth 1 w 0)) (nth 6 w 0))
                     (add32 (sigma0 (nth 14 w 0)) (nth 15 w 0)) in
      schedule n' (t :: w)
  end.

Record regs : Type :=
  mkRegs { ra : Z; rb : Z; rc : Z; rd : Z; re : Z; rf : Z; rg : Z; rh : Z }.

Definition round (s : regs) (kw : Z * Z) : regs :=
  let '(k, w) := kw in
  let t1 := add32 (add32 (add32 (rh s) (Sigma1 (re s)))
                         (add32 (Ch (re s) (rf s) (rg s)) k)) w in
  let t2 := add32 (Sigma0 (ra s)) (Maj (ra s) (rb s) (rc s)) in
  mkRegs (add32 t1 t2) (ra s) (rb s) (rc s) (add32 (rd s) t1)
         (re s) (rf s) (rg s).

Definition of_list (h : list Z) : regs :=
  mkRegs (nth 0 h 0) (nth 1 h 0) (nth 2 h 0) (nth 3 h 0)
         (nth 4 h 0) (nth 5 h 0) (nth 6 h 0) (nth 7 h 0).

Definition to_list (s : regs) : list Z :=
  [ra s; rb s; rc s; rd s; re s; rf s; rg s; rh s].

Definition compress (h : list Z) (block : list Z) : list Z :=
  let w := rev (schedule 48 (rev block)) in
  let s := fold_left round (combine K w) (of_list h) in
  map (fun p => add32 (fst p) (snd p)) (combine h (to_list s)).

Fixpoint blocks (ws : list Z) (fuel : nat) (h : list Z) : list Z :=
  match fuel with
  | O => h
  | S fuel' =>
      match ws with
      | [] => h
      | _ => blocks (skipn 16 ws) fuel' (compress h (firstn 16 ws))
      end
  end.

Definition digest (msg : list Z) : list Z :=
  let bytes := pad msg in
  let ws := words bytes (List.length bytes) in
  blocks ws (List.length ws) H0.

Definition hex_char (d : Z) : ascii :=
  ascii_of_nat (Z.to_nat (if d <? 10 then 48 + d else 87 + d)).

Definition hex32 (w : Z) : string :=
  fold_right (fun i acc => String (hex_char (Z.shiftr w (4 * (7 - Z.of_nat i)) mod 16)) acc)
             "" (seq 0 8).

Definition bytes_of_string (s : string) : list Z :=
  map (fun c => Z.of_nat (nat_of_ascii c)) (list_ascii_of_string s).

(** [crypto.createHash('sha256').update(s).digest('hex')] *)
Definition sha256_hex (s : string) : string :=
  fold_right (fun w acc => hex32 w ++ acc) "" (digest (bytes_of_string s)).

End SHA256.

(* ================================================================== *)
(** ** Calls that read and write an instance and may throw *)
(* ================================================================== *)

Module Call.

Import JS.

(** How a call ends. *)
Inductive completion (A : Type) : Type :=
| Return (a : A)
| Throw (e : exn).

Arguments Return {A} a.
Arguments Throw {A} e.

Section Monad.

(** The instance fields ([this]). *)
Context {S : Type}.

(** A method body: from the fields before the call to its completion and
    the fields after it.  A thrown error keeps the writes made so far. *)
Definition M (A : Type) : Type := S -> completion A * S.

Definition ret {A} (a : A) : M A := fun st => (Return a, st).

Definition throw {A} (e : exn) : M A := fun st => (Throw e, st).

Definition bind {A B} (m : M A) (f : A -> M B) : M B :=
  fun st =>
    match m st with
    | (Return a, st') => f a st'
    | (Throw e, st') => (Throw e, st')
    end.

Definition gets {A} (f : S -> A) : M A := fun st => (Return (f st), st).

Definition modify (f : S -> S) : M unit := fun st => (Return tt, f st).

(** [for (const x of xs) body(x)] *)
Fixpoint forEach {A B} (body : A -> M B) (xs : list A) : M unit :=
  match xs with
  | [] => ret tt
  | x :: rest => bind (body x) (fun _ => forEach body rest)
  end.

(** [xs.map(f)] where [f] may throw. *)
Fixpoint mapM {A B} (f : A -> M B) (xs : list A) : M (list B) :=
  match xs with
  | [] => ret []
  | x :: rest =>
      bind (f x) (fun y => bind (mapM f rest) (fun ys => ret (y :: ys)))
  end.

(** [o.k] where [o] may be [undefined]. *)
Definition member (o : option obj) (k : string) : M value :=
  match o with
  | Some o => ret (get o k)
  | None => throw TypeError
  end.

End Monad.

Notation "x <- m ;; k" := (bind m (fun x => k))
  (at level 61, m at next level, right associativity).
Notation "m ;;; k" := (bind m (fun _ => k))
  (at level 61, right associativity).

End Call.

(* ================================================================== *)
(** ** [class Blockchain] (src/core/blockchain.js) *)
(* ================================================================== *)

Module Blockchain.

Import JS Call.

(** The fields set by the constructor.  A block and a transaction are
    plain objects. *)
Record State : Type := mkState {
  chain : list obj;
  currentTransactions : list obj;
  difficulty : Z;
  blockTime : Z;
  maxSupply : Z;
  blockReward : Z;
  halvingInterval : Z
}.

Definition with_chain (c : list obj) (st : State) : State :=
  mkState c (currentTransactions st) (difficulty st) (blockTime st)
          (maxSupply st) (blockReward st) (halvingInterval st).

Definition with_currentTransactions (p : list obj) (st : State) : State :=
  mkState (chain st) p (difficulty st) (blockTime st)
          (maxSupply st) (blockReward st) (halvingInterval st).

Definition with_difficulty (d : Z) (st : State) : State :=
  mkState (chain st) (currentTransactions st) d (blockTime st)
          (maxSupply st) (blockReward st) (halvingInterval st).

(** ["0".repeat(n)] *)
Fixpoint zeros (n : nat) : string :=
  match n with
  | O => ""
  | S n' => String "0" (zeros n')
  end.

(** [createGenesisBlock()]; [now] is the reading of [Date.now()]. *)
Definition createGenesisBlock (now : Z) : M (S := State) obj :=
  d <- gets difficulty ;;
  let genesisBlock : obj :=
    [ ("index", VNum 0);
      ("timestamp", VNum now);
      ("transactions", VArray []);
      ("previousHash", VString (zeros 64));
      ("hash", VString (zeros 64));
      ("validator", VString "MyCoin Genesis");
      ("signature", VString (zeros 128));
      ("difficulty", VNum d);
      ("nonce", VNum 0) ] in
  modify (fun st => with_chain (chain st ++ [genesisBlock])%list st) ;;;
  ret genesisBlock.

(** [new Blockchain()] *)
Definition constructor (now : Z) : State :=
  let st := mkState [] [] 4 3 100000000 50 840000 in
  if (List.length (chain st) =? 0)%nat
  then snd (createGenesisBlock now st)
  else st.

(** [getLatestBlock()]: [chain[chain.length - 1]], [None] for
    [undefined]. *)
Definition getLatestBlock (st : State) : option obj :=
  nth_error (chain st) (List.length (chain st) - 1).

(** [getCurrentBlockReward()].  The quotient and the power are the exact
    ones; [None] is [NaN] (height 0 over interval 0). *)
Definition getCurrentBlockReward (st : State) : option Q :=
  let currentBlockHeight := Z.of_nat (List.length (chain st)) in
  if halvingInterval st =? 0 then
    (* x / 0 is Infinity for x > 0, and Math.min(Infinity, 64) is 64 *)
    if currentBlockHeight =? 0 then None
    else Some (inject_Z (blockReward st) / Qpower 2 64)%Q
  else
    let halvings :=
      Qfloor (inject_Z currentBlockHeight / inject_Z (halvingInterval st)) in
    let cappedHalvings := Z.min halvings 64 in
    Some (inject_Z (blockReward st) / Qpower 2 cappedHalvings)%Q.

(** The test of [addTransaction]:
    [!transaction.sender || !transaction.recipient || transaction.amount <= 0] *)
Definition rejected (transaction : obj) : bool :=
  negb (truthy (get transaction "sender"))
  || negb (truthy (get transaction "recipient"))
  || js_le (get transaction "amount") 0.

(** [addTransaction(transaction)] *)
Definition addTransaction (transaction : obj) : M (S := State) value :=
  if rejected transaction then throw (Error "Invalid transaction")
  else
    modify (fun st =>
      with_currentTransactions (currentTransactions st ++ [transaction])%list st) ;;;
    latest <- gets getLatestBlock ;;
    index <- member latest "index" ;;
    ret (js_add index (VNum 1)).

(** [isValidBlockStructure(block)] *)
Definition isValidBlockStructure (block : obj) : bool :=
  (typeof (get block "index") =? "number")%string
  && (typeof (get block "timestamp") =? "number")%string
  && (typeof (get block "transactions") =? "object")%string
  && (typeof (get block "previousHash") =? "string")%string
  && (typeof (get block "hash") =? "string")%string
  && (typeof (get block "validator") =? "string")%string.

(** [adjustDifficulty()].  [timeTaken < timeExpected * 0.5] is compared as
    [2 * timeTaken < timeExpected]; a comparison with [NaN] is false. *)
Definition adjustDifficulty : M (S := State) unit :=
  fun st =>
    if (List.length (chain st) <=? 1)%nat then (Return tt, st)
    else
      let lastBlock := getLatestBlock st in
      let prevBlock := nth_error (chain st) (List.length (chain st) - 2) in
      match lastBlock, prevBlock with
      | Some lastBlock, Some prevBlock =>
          let timeExpected := blockTime st * 1000 in
          match js_sub (get lastBlock "timestamp") (get prevBlock "timestamp") with
          | Num timeTaken =>
              if 2 * timeTaken <? timeExpected then
                (Return tt, with_difficulty (difficulty st + 1) st)
              else if timeTaken >? timeExpected * 2 then
                (Return tt, with_difficulty (Z.max 1 (difficulty st - 1)) st)
              else (Return tt, st)
          | NaN => (Return tt, st)
          end
      | _, _ => (Throw TypeError, st)
      end.

(** [tx.hash || JSON.stringify(tx)] for an element [tx] of an array; a
    property read on [undefined] or [null] is a [TypeError]. *)
Definition txKey (tx : value) : M (S := State) value :=
  match tx with
  | VUndefined | VNull => throw TypeError
  | _ =>
      let hash := match tx with VObject ps => get ps "hash" | _ => VUndefined end in
      if truthy hash then ret hash
      else ret (match JSON_stringify tx with
                | Some s => VString s
                | None => VUndefined
                end)
  end.

(** The same key for a queued transaction, which is an object. *)
Definition pendingKey (tx : obj) : value :=
  if truthy (get tx "hash") then get tx "hash"
  else match JSON_stringify (VObject tx) with
       | Some s => VString s
       | None => VUndefined
       end.

(** [block.transactions.map(tx => tx.hash || JSON.stringify(tx))]: only an
    array has a [map] method. *)
Definition txHashesOf (transactions : value) : M (S := State) (list value) :=
  match transactions with
  | VArray txs => mapM txKey txs
  | _ => throw TypeError
  end.

(** [addBlock(block, validator, signature)] *)
Definition addBlock (block : obj) (validator signature : value)
  : M (S := State) value :=
  previousBlock <- gets getLatestBlock ;;
  len <- gets (fun st => List.length (chain st)) ;;
  let block := set block "index" (VNum (Z.of_nat len)) in
  previousHash <- member previousBlock "hash" ;;
  let block :=
    if negb (strict_eq (get block "previousHash") previousHash)
    then set block "previousHash" previousHash
    else block in
  modify (fun st => with_chain (chain st ++ [block])%list st) ;;;
  txHashes <- txHashesOf (get block "transactions") ;;
  modify (fun st =>
    with_currentTransactions
      (filter (fun tx => negb (includes txHashes (pendingKey tx)))
              (currentTransactions st)) st) ;;;
  adjustDifficulty ;;;
  ret (VBool true).

(** The loop shared by [isChainValid] and [isValidChain]: for [i] from 1,
    [chain[i].previousHash !== chain[i-1].hash] or a block of invalid
    structure ends it with [false]. *)
Fixpoint linksValid (previousBlock : obj) (rest : list obj) : bool :=
  match rest with
  | [] => true
  | block :: rest' =>
      if negb (strict_eq (get block "previousHash") (get previousBlock "hash"))
      then false
      else if negb (isValidBlockStructure block) then false
      else linksValid block rest'
  end.

Definition loopValid (chain : list obj) : bool :=
  match chain with
  | [] => true
  | genesis :: rest => linksValid genesis rest
  end.

(** [isChainValid()] *)
Definition isChainValid (st : State) : bool := loopValid (chain st).

(** [JSON.stringify(chain[0])] *)
Definition stringifyFirst (chain : list obj) : option string :=
  match nth_error chain 0 with
  | Some b => JSON_stringify (VObject b)
  | None => JSON_stringify VUndefined
  end.

Definition option_string_eqb (a b : option string) : bool :=
  match a, b with
  | Some x, Some y => (x =? y)%string
  | None, None => true
  | _, _ => false
  end.

(** [isValidChain(chain)] *)
Definition isValidChain (st : State) (chain' : list obj) : bool :=
  if negb (option_string_eqb (stringifyFirst chain') (stringifyFirst (chain st)))
  then false
  else loopValid chain'.

(** [reprocessPendingTransactions()] *)
Definition reprocessPendingTransactions : M (S := State) unit :=
  currentTransactions' <- gets currentTransactions ;;
  modify (with_currentTransactions []) ;;;
  forEach addTransaction currentTransactions'.

(** [replaceChain(newChain)] *)
Definition replaceChain (newChain : list obj) : M (S := State) value :=
  tooShort <- gets (fun st => (List.length newChain <=? List.length (chain st))%nat) ;;
  if tooShort then ret (VBool false)
  else
    valid <- gets (fun st => isValidChain st newChain) ;;
    if negb valid then ret (VBool false)
    else
      modify (with_chain newChain) ;;;
      reprocessPendingTransactions ;;;
      ret (VBool true).

End Blockchain.

(* ================================================================== *)
(** ** [class DPoSConsensus] (src/consensus/dpos.js) *)
(* ================================================================== *)

Module DPoS.

Import JS.

#[local] Open Scope list_scope.

(** The vote ledger, [Map<validator, totalStake>]: the entries in
    insertion order, one per key.  Addresses are strings and stakes exact
    integers. *)
Definition VoteLedger : Type := list (string * Z).

(** [votes.get(k)] *)
Fixpoint map_get (m : VoteLedger) (k : string) : option Z :=
  match m with
  | [] => None
  | (k', v) :: rest => if (k' =? k)%string then Some v else map_get rest k
  end.

(** [votes.set(k, v)]: an existing key keeps its place, a new key comes
    last. *)
Fixpoint map_set (m : VoteLedger) (k : string) (v : Z) : VoteLedger :=
  match m with
  | [] => [(k, v)]
  | (k', v') :: rest =>
      if (k' =? k)%string then (k', v) :: rest else (k', v') :: map_set rest k v
  end.

(** [votes.delete(k)] *)
Fixpoint map_delete (m : VoteLedger) (k : string) : VoteLedger :=
  match m with
  | [] => []
  | (k', v') :: rest =>
      if (k' =? k)%string then rest else (k', v') :: map_delete rest k
  end.

Record State : Type := mkState {
  delegateCount : nat;
  blockTime : Z;
  epochLength : Z;
  activeDelegates : list string;
  standbyDelegates : list string;
  votes : VoteLedger;
  delegateSchedule : list string;
  currentProducer : Z;
  lastBlockTime : Z
}.

(** [options.x || d] *)
Definition or_default {A} (isZero : A -> bool) (x : option A) (d : A) : A :=
  match x with
  | Some v => if isZero v then d else v
  | None => d
  end.

(** [new DPoSConsensus(options)] *)
Definition constructor (delegateCount' : option nat)
           (blockTime' epochLength' : option Z) : State :=
  mkState (or_default (Nat.eqb 0) delegateCount' 21%nat)
          (or_default (Z.eqb 0) blockTime' 3)
          (or_default (Z.eqb 0) epochLength' 10080)
          [] [] [] [] 0 0.

Definition with_votes (m : VoteLedger) (st : State) : State :=
  mkState (delegateCount st) (blockTime st) (epochLength st)
          (activeDelegates st) (standbyDelegates st) m
          (delegateSchedule st) (currentProducer st) (lastBlockTime st).

Definition with_delegates (active standby : list string) (st : State) : State :=
  mkState (delegateCount st) (blockTime st) (epochLength st)
          active standby (votes st)
          (delegateSchedule st) (currentProducer st) (lastBlockTime st).

Definition with_schedule (schedule : list string) (producer : Z) (st : State)
  : State :=
  mkState (delegateCount st) (blockTime st) (epochLength st)
          (activeDelegates st) (standbyDelegates st) (votes st)
          schedule producer (lastBlockTime st).

(** The comparator of [updateDelegates]: [(a, b) => b[1] - a[1]]. *)
Definition byStake (a b : string * Z) : Z := snd b - snd a.

(** [entries.sort(byStake)].  The sort is stable: an entry goes before
    the first entry that the comparator does not put ahead of it, so
    entries that compare equal keep the order of the ledger. *)
Fixpoint insert (e : string * Z) (sorted : list (string * Z))
  : list (string * Z) :=
  match sorted with
  | [] => [e]
  | x :: rest =>
      if byStake e x <=? 0 then e :: x :: rest else x :: insert e rest
  end.

Fixpoint sort (entries : list (string * Z)) : list (string * Z) :=
  match entries with
  | [] => []
  | e :: rest => insert e (sort rest)
  end.

(** Value of the leading hexadecimal digits: [parseInt(s, 16)] on a
    piece of a hex digest. *)
Definition hex_value (c : ascii) : option Z :=
  let n := Z.of_nat (nat_of_ascii c) in
  if (48 <=? n) && (n <=? 57) then Some (n - 48)
  else if (97 <=? n) && (n <=? 102) then Some (n - 87)
  else if (65 <=? n) && (n <=? 70) then Some (n - 55)
  else None.

Fixpoint parseInt16_from (s : string) (acc : Z) : Z :=
  match s with
  | EmptyString => acc
  | String c rest =>
      match hex_value c with
      | Some d => parseInt16_from rest (16 * acc + d)
      | None => acc
      end
  end.

Definition parseInt16 (s : string) : Z := parseInt16_from s 0.

(** [l[i] = x] for [i] inside the array. *)
Fixpoint update (l : list string) (i : nat) (x : string) : list string :=
  match l, i with
  | [], _ => []
  | _ :: rest, O => x :: rest
  | y :: rest, S i' => y :: update rest i' x
  end.

(** [[l[i], l[j]] = [l[j], l[i]]] *)
Definition swap (l : list string) (i j : nat) : list string :=
  match nth_error l i, nth_error l j with
  | Some li, Some lj => update (update l i lj) j li
  | _, _ => l
  end.

(** The loop of [shuffleDelegates], from index [i] down to 1. *)
Fixpoint shuffleFrom (seed : string) (i : nat) (delegates : list string)
  : list string :=
  match i with
  | O => delegates
  | S i' =>
      let j :=
        Z.rem (parseInt16 (substring (i mod 32) 8 seed)) (Z.of_nat i + 1) in
      shuffleFrom seed i' (swap delegates i (Z.to_nat j))
  end.

(** [shuffleDelegates(delegates)]; [now] is the reading of [Date.now()]
    that seeds it. *)
Definition shuffleDelegates (now : Z) (delegates : list string) : list string :=
  let seed := SHA256.sha256_hex (decimal now) in
  shuffleFrom seed (List.length delegates - 1) delegates.

(** [createDelegateSchedule()] *)
Definition createDelegateSchedule (now : Z) (st : State) : State :=
  with_schedule (shuffleDelegates now (activeDelegates st)) 0 st.

(** [updateDelegates()] *)
Definition updateDelegates (now : Z) (st : State) : State :=
  let sortedDelegates := map fst (sort (votes st)) in
  let st := with_delegates (firstn (delegateCount st) sortedDelegates)
                           (skipn (delegateCount st) sortedDelegates) st in
  createDelegateSchedule now st.

(** [votes.get(delegate) || 0] *)
Definition stakeOf (m : VoteLedger) (delegate : string) : Z :=
  match map_get m delegate with
  | Some s => if s =? 0 then 0 else s
  | None => 0
  end.

(** [registerVote(voter, delegate, stake)] *)
Definition registerVote (voter delegate : string) (stake : Z) (st : State)
  : State :=
  let currentStake := stakeOf (votes st) delegate in
  with_votes (map_set (votes st) delegate (currentStake + stake)) st.

(** [removeVote(voter, delegate, stake)] *)
Definition removeVote (voter delegate : string) (stake : Z) (st : State)
  : State :=
  let currentStake := stakeOf (votes st) delegate in
  let newStake := Z.max 0 (currentStake - stake) in
  if newStake =? 0 then with_votes (map_delete (votes st) delegate) st
  else with_votes (map_set (votes st) delegate newStake) st.


(** [isAuthorized(validator, timestamp)]: the body returns at its first
    statement. *)
Definition isAuthorized (validator : string) (timestamp : Z) (st : State)
  : bool :=
  true.

(** The statements of [isAuthorized] that follow its [return true], which
    no call executes: membership in the active set, then the producer
    scheduled for the slot of [timestamp].  A slot that is not a number
    (zero block time) or an index outside the schedule reads
    [undefined], which no address equals. *)
Definition isAuthorized_afterReturn (validator : string) (timestamp : Z)
           (st : State) : bool :=
  if negb (existsb (String.eqb validator) (activeDelegates st)) then false
  else
    let slotLength := blockTime st * 1000 in
    let len := Z.of_nat (List.length (delegateSchedule st)) in
    if (slotLength =? 0) || (len =? 0) then false
    else
      let currentSlot := (timestamp - lastBlockTime st) / slotLength in
      let index := Z.rem (currentProducer st + currentSlot) len in
      if index <? 0 then false
      else match nth_error (delegateSchedule st) (Z.to_nat index) with
           | Some expectedProducer => (validator =? expectedProducer)%string
           | None => false
           end.

End DPoS.

(* ================================================================== *)
(** ** Notions used to state the properties of the chain model *)
(* ================================================================== *)

Module ChainProperties.

Import JS Call Blockchain.

#[local] Open Scope list_scope.

(** The invariant of the instance: the chain has its genesis block, and
    every pending transaction passed the test of [addTransaction]. *)
Definition admissible (st : State) : Prop :=
  chain st <> [] /\ Forall (fun tx => rejected tx = false) (currentTransactions st).




(** [undefined] and [null], on which a property read throws. *)
Definition nullish (v : value) : bool :=
  match v with
  | VUndefined | VNull => true
  | _ => false
  end.

(** The identity under which a transaction of a block is matched:
    its [hash] when it has one, its JSON text otherwise. *)
Definition keyOf (tx : value) : value :=
  let hash := match tx with VObject ps => get ps "hash" | _ => VUndefined end in
  if truthy hash then hash
  else match JSON_stringify tx with
       | Some s => VString s
       | None => VUndefined
       end.

(** No element of the array is [undefined] or [null]. *)
Definition defined (txs : list value) : bool :=
  forallb (fun tx => negb (nullish tx)) txs.

(** The block as [addBlock] pushes it: [index] re-stamped with the length
    of the chain, [previousHash] overwritten when it is not the hash of
    the tip. *)
Definition stamped (st : State) (block : obj) (tipHash : value) : obj :=
  let block1 := set block "index" (VNum (Z.of_nat (List.length (chain st)))) in
  if negb (strict_eq (get block1 "previousHash") tipHash)
  then set block1 "previousHash" tipHash
  else block1.

(** The queue after [addBlock]: the transactions whose key is not a key
    of a transaction of the block. *)
Definition remaining (txs : list value) (pending : list obj) : list obj :=
  filter (fun tx => negb (includes (map keyOf txs) (pendingKey tx))) pending.

(** The instances that the constructor and the public methods produce,
    whichever way each call ends. *)
Inductive reachable : State -> Prop :=
| reach_constructor (now : Z) :
    reachable (constructor now)
| reach_addTransaction (st : State) (tx : obj) :
    reachable st -> reachable (snd (addTransaction tx st))
| reach_addBlock (st : State) (block : obj) (validator signature : value) :
    reachable st -> reachable (snd (addBlock block validator signature st))
| reach_replaceChain (st : State) (c : list obj) :
    reachable st -> reachable (snd (replaceChain c st)).

End ChainProperties.

(* ================================================================== *)
(** ** Notions used to state the properties of the registry *)
(* ================================================================== *)

Module LedgerProperties.

Import DPoS.

#[local] Open Scope list_scope.

(** A call on the validator registry. *)
Inductive op : Type :=
| RegisterVote (voter delegate : string) (stake : Z)
| RemoveVote (voter delegate : string) (stake : Z).

(** The registry after one call, and after a sequence of calls. *)
Definition apply (st : State) (o : op) : State :=
  match o with
  | RegisterVote voter delegate stake => registerVote voter delegate stake st
  | RemoveVote voter delegate stake => removeVote voter delegate stake st
  end.

Definition run (ops : list op) (st : State) : State := fold_left apply ops st.




(** Ties of the ranking follow the relation [precedes] on addresses. *)
Definition tiesBrokenBy (precedes : string -> string -> Prop) : Prop :=
  forall (ops : list op) (now : Z) (i j : nat) (a b : string),
    let st := updateDelegates now (run ops (constructor (Some 1%nat) None None)) in
    (i < j)%nat ->
    nth_error (activeDelegates st ++ standbyDelegates st) i = Some a ->
    nth_error (activeDelegates st ++ standbyDelegates st) j = Some b ->
    stakeOf (votes st) a = stakeOf (votes st) b ->
    precedes a b.

(** Entry [a] may stand before entry [b] in a descending ranking. *)
Definition descending (a b : string * Z) : Prop := snd b <= snd a.

(** The entries of stake [s]. *)
Definition withStake (s : Z) (e : string * Z) : bool := snd e =? s.

End LedgerProperties.

(* ================================================================== *)
(** ** Chain scenarios *)
(* ================================================================== *)

Module ChainScenario.

Import JS Call Blockchain.

#[local] Open Scope list_scope.

(** A node started at time 0. *)
Definition node : State := constructor 0.

(** A transfer that carries a hash. *)
Definition transfer : obj :=
  [ ("sender", VString "alice");
    ("recipient", VString "bob");
    ("amount", VNum 5);
    ("hash", VString "tx-1") ].

(** The node with [transfer] queued. *)
Definition nodeWithTransfer : State := snd (addTransaction transfer node).

(** A block that follows the genesis block and includes [transfer]. *)
Definition blockWithTransfer : obj :=
  [ ("index", VNum 1);
    ("timestamp", VNum 3000);
    ("transactions", VArray [VObject transfer]);
    ("previousHash", VString (zeros 64));
    ("hash", VString "block-1");
    ("validator", VString "delegate-1") ].

(** A longer chain with the same genesis block. *)
Definition fork : list obj := chain node ++ [blockWithTransfer].

(** A block of valid structure whose [index] is not its position. *)
Definition block7 : obj :=
  [ ("index", VNum 7);
    ("timestamp", VNum 3000);
    ("transactions", VArray []);
    ("previousHash", VString (zeros 64));
    ("hash", VString "block-7");
    ("validator", VString "delegate-1") ].

(** A longer chain that ends with [block7]. *)
Definition fork7 : list obj := chain node ++ [block7].

(** The node after it adopted [fork7]. *)
Definition nodeOnFork7 : State := snd (replaceChain fork7 node).

(** A block with nothing but an empty list of transactions. *)
Definition bareBlock : obj := [ ("transactions", VArray []) ].

(** An object with no property at all. *)
Definition emptyObject : obj := [].

(** An instance whose reward halves every second block, two blocks
    long. *)
Definition shortHalving : State :=
  mkState (chain node ++ [blockWithTransfer]) [] 4 3 100000000 50 2.

End ChainScenario.

(* ================================================================== *)
(** ** Registry scenarios *)
(* ================================================================== *)

Module RegistryScenario.

Import DPoS LedgerProperties.

#[local] Open Scope list_scope.

(** A registry with one active seat. *)
Definition oneSeat : State := constructor (Some 1%nat) None None.

(** Three delegates voted in, on a registry with the default 21 seats. *)
Definition electorate : State :=
  run [ RegisterVote "voter-1" "A" 20000;
        RegisterVote "voter-2" "B" 15000;
        RegisterVote "voter-3" "C" 10000 ]
      (constructor None None None).

(** A registry where "alice" alone is voted in and scheduled. *)
Definition aliceScheduled : State :=
  updateDelegates 0 (registerVote "alice" "alice" 20000 oneSeat).

End RegistryScenario.

(* ================================================================== *)
(** ** [class Blockchain], the remaining method *)
(* ================================================================== *)

Module Validation.

Import JS Blockchain.



End Validation.

(* ================================================================== *)
(** ** [class DPoSConsensus], the slot and block-production methods *)
(* ================================================================== *)

Module Producer.

Import JS DPoS.

#[local] Open Scope list_scope.

Definition with_cursor (producer : Z) (st : State) : State :=
  with_schedule (delegateSchedule st) producer st.

Definition with_lastBlockTime (t : Z) (st : State) : State :=
  mkState (delegateCount st) (blockTime st) (epochLength st)
          (activeDelegates st) (standbyDelegates st) (votes st)
          (delegateSchedule st) (currentProducer st) t.

(** [(this.currentProducer + 1) % this.delegateSchedule.length]: [NaN]
    when the schedule is empty. *)
Definition advanced (st : State) : number :=
  let len := Z.of_nat (List.length (delegateSchedule st)) in
  if len =? 0 then NaN else Num (Z.rem (currentProducer st + 1) len).

(** [this.delegateSchedule[this.currentProducer]], [None] for
    [undefined]. *)
Definition scheduled (st : State) : option string :=
  if currentProducer st <? 0 then None
  else nth_error (delegateSchedule st) (Z.to_nat (currentProducer st)).

(** The instance once [this.currentProducer] is assigned [n]; [None] when
    [n] is [NaN], which the integer cursor of [State] does not hold. *)
Definition assignCursor (n : number) (st : State) : option State :=
  match n with
  | Num z => Some (with_cursor z st)
  | NaN => None
  end.

(** [getNextProducer()]: the producer returned and the instance after the
    call. *)
Definition getNextProducer (st : State) : option string * option State :=
  let producer := scheduled st in
  (producer, assignCursor (advanced st) st).

(** [handleMissedBlock(missedProducer)] *)
Definition handleMissedBlock (missedProducer : string) (st : State)
  : option State :=
  assignCursor (advanced st) st.

(** [isTimeForNextBlock(currentTime)] *)
Definition isTimeForNextBlock (currentTime : Z) (st : State) : bool :=
  currentTime - lastBlockTime st >=? blockTime st * 1000.

(** [updateLastBlockTime(blockTime)] *)
Definition updateLastBlockTime (t : Z) (st : State) : State :=
  with_lastBlockTime t st.

(** [calculateBlockHash(block)]; the JSON text of an object is always a
    string. *)
Definition calculateBlockHash (block : obj) : string :=
  let blockData : obj :=
    [ ("index", get block "index");
      ("timestamp", get block "timestamp");
      ("transactions", get block "transactions");
      ("previousHash", get block "previousHash");
      ("validator", get block "validator") ] in
  match JSON_stringify (VObject blockData) with
  | Some text => SHA256.sha256_hex text
  | None => ""
  end.

(** [signBlock(block, privateKey)] *)
Definition signBlock (block : obj) (privateKey : value) : string :=
  SHA256.sha256_hex (ToString (js_add (get block "hash") privateKey)).

(** [verifyBlockSignature(block)] *)
Definition verifyBlockSignature (block : obj) : bool := true.

(** [createBlock(transactions, previousHash, validator, privateKey)];
    [now] is the reading of [Date.now()]. *)
Definition createBlock (now : Z) (transactions previousHash validator
                                  privateKey : value) (st : State)
  : obj * State :=
  let block : obj :=
    [ ("index", VNum 0);
      ("timestamp", VNum now);
      ("transactions", transactions);
      ("previousHash", previousHash);
      ("validator", validator);
      ("difficulty", VNum 1) ] in
  let block := set block "hash" (VString (calculateBlockHash block)) in
  let block := set block "signature" (VString (signBlock block privateKey)) in
  (block, updateLastBlockTime now st).

(** The producers returned by [n] calls of [getNextProducer] in a row,
    and the instance after them; the calls stop when the cursor is lost. *)
Fixpoint nextProducers (n : nat) (st : State)
  : list (option string) * option State :=
  match n with
  | O => ([], Some st)
  | S n' =>
      match getNextProducer st with
      | (producer, Some st1) =>
          let '(producers, st2) := nextProducers n' st1 in
          (producer :: producers, st2)
      | (producer, None) => ([producer], None)
      end
  end.

(** [getFinalizationTime()] *)
Definition getFinalizationTime (st : State) : Z :=
  let finalizationBlocks :=
    Qceiling (inject_Z (2 * Z.of_nat (delegateCount st)) / inject_Z 3) in
  finalizationBlocks * blockTime st * 1000.

End Producer.

(* ================================================================== *)
(** ** The block-production tick of the node (src/index.js) *)
(* ================================================================== *)

Module Node.

Import JS Call.

#[local] Open Scope list_scope.

(** The body of the [try] in the production loop, up to the call of
    [addBlock]; what follows it only reports and calls the governance
    collaborator.  [now] is the reading of [Date.now()] in
    [createBlock]. *)
Definition tryProduce (address : string) (now : Z)
           (blockchain : Blockchain.State) (consensus : DPoS.State)
  : completion value * (Blockchain.State * DPoS.State) :=
  match Blockchain.getLatestBlock blockchain with
  | None => (Throw TypeError, (blockchain, consensus))
  | Some latestBlock =>
      let previousHash := get latestBlock "hash" in
      let '(newBlock, consensus') :=
        Producer.createBlock now
          (VArray (map VObject (Blockchain.currentTransactions blockchain)))
          previousHash (VString address) (VString "DEMO_PRIVATE_KEY")
          consensus in
      let '(success, blockchain') :=
        Blockchain.addBlock newBlock (VString address)
                            (get newBlock "signature") blockchain in
      (success, (blockchain', consensus'))
  end.

(** One tick of the production loop: a block is produced when
    transactions are pending and the slot time has elapsed; an error is
    caught and logged.  [checked] is the reading of [Date.now()] passed to
    [isTimeForNextBlock]. *)
Definition tick (address : string) (checked now : Z)
           (blockchain : Blockchain.State) (consensus : DPoS.State)
  : Blockchain.State * DPoS.State :=
  if (0 <? List.length (Blockchain.currentTransactions blockchain))%nat
     && Producer.isTimeForNextBlock checked consensus
  then snd (tryProduce address now blockchain consensus)
  else (blockchain, consensus).

End Node.

(* ================================================================== *)
(** ** Notions used to state further properties of the chain model *)
(* ================================================================== *)

Module ChainNotions.

Import JS Blockchain.

(** The difficulty that [adjustDifficulty] sets for a block that came
    [elapsed] milliseconds after its predecessor. *)
Definition adjusted (blockTime difficulty : Z) (elapsed : number) : Z :=
  match elapsed with
  | Num timeTaken =>
      if 2 * timeTaken <? blockTime * 1000 then difficulty + 1
      else if timeTaken >? blockTime * 1000 * 2 then Z.max 1 (difficulty - 1)
      else difficulty
  | NaN => difficulty
  end.


(** The number of halvings at chain length [n], capped. *)
Definition halvingsAt (n : nat) : Z := Z.min (Z.of_nat n / 840000) 64.

End ChainNotions.

(* ================================================================== *)
(** ** The digest on the test vectors of the standard *)
(* ================================================================== *)

Module SHA256Facts.

Import SHA256.

Example sha256_abc :
  sha256_hex "abc"
  = "ba7816bf8f01cfea414140de5dae2223b00361a396177a9cb410ff61f20015ad".
Proof. vm_compute. reflexivity. Qed.

Example sha256_empty :
  sha256_hex ""
  = "e3b0c44298fc1c149afbf4c8996fb92427ae41e4649b934ca495991b7852b855".
Proof. vm_compute. reflexivity. Qed.

Example sha256_two_blocks :
  sha256_hex "abcdbcdecdefdefgefghfghighijhijkijkljklmklmnlmnomnopnopq"
  = "248d6a61d20638b8e5c026930c3e6039a33ce45964ff2167f6ecedd419db06c1".
Proof. vm_compute. reflexivity. Qed.

End SHA256Facts.

(* ================================================================== *)
(** ** Properties of the chain model *)
(* ================================================================== *)

Module BlockchainFacts.

Import JS Call Blockchain ChainProperties.

#[local] Open Scope list_scope.

Ltac run := unfold bind, gets, modify, ret, throw, member in *; simpl in *.

(** *** Object properties *)

Lemma get_replace_same (o : obj) (k : string) (v : value) :
  has o k = true -> get (replace o k v) k = v.
Proof.
  induction o as [|[k' v'] o IH]; simpl; [discriminate|].
  destruct (String.eqb_spec k' k) as [->|Hne]; simpl.
  - now rewrite String.eqb_refl.
  - intros H. destruct (String.eqb_spec k' k); [contradiction|]. now apply IH.
Qed.

Lemma get_replace_other (o : obj) (k k' : string) (v : value) :
  k <> k' -> get (replace o k v) k' = get o k'.
Proof.
  intros Hne. induction o as [|[k0 v0] o IH]; simpl; [reflexivity|].
  destruct (String.eqb_spec k0 k) as [->|Hk]; simpl.
  - destruct (String.eqb_spec k k'); [contradiction|reflexivity].
  - destruct (String.eqb_spec k0 k'); [reflexivity|apply IH].
Qed.

Lemma get_app_absent (o : obj) (k k' : string) (v : value) :
  has o k = false ->
  get (o ++ [(k, v)]) k' = if (k =? k')%string then v else get o k'.
Proof.
  induction o as [|[k0 v0] o IH]; simpl.
  - intros _. reflexivity.
  - intros H. apply orb_false_iff in H as [Hk Ho].
    destruct (String.eqb_spec k0 k') as [->|Hne].
    + rewrite String.eqb_sym in Hk. now rewrite Hk.
    + now apply IH.
Qed.

Lemma get_set_same (o : obj) (k : string) (v : value) :
  get (set o k v) k = v.
Proof.
  unfold set. destruct (has o k) eqn:H.
  - now apply get_replace_same.
  - rewrite get_app_absent by assumption. now rewrite String.eqb_refl.
Qed.

Lemma get_set_other (o : obj) (k k' : string) (v : value) :
  k <> k' -> get (set o k v) k' = get o k'.
Proof.
  intros Hne. unfold set. destruct (has o k) eqn:H.
  - now apply get_replace_other.
  - rewrite get_app_absent by assumption.
    destruct (String.eqb_spec k k'); [contradiction|reflexivity].
Qed.

(** *** The tip of a non-empty chain *)

Lemma getLatestBlock_some (st : State) :
  chain st <> [] -> exists tip, getLatestBlock st = Some tip.
Proof.
  intros H. unfold getLatestBlock.
  destruct (nth_error (chain st) (List.length (chain st) - 1)) eqn:E; eauto.
  apply nth_error_None in E. destruct (chain st); [contradiction|simpl in E; lia].
Qed.

Lemma getLatestBlock_with_currentTransactions (p : list obj) (st : State) :
  getLatestBlock (with_currentTransactions p st) = getLatestBlock st.
Proof. reflexivity. Qed.

(** *** [addTransaction] *)


Lemma addTransaction_queued (tx : obj) (st : State) :
  rejected tx = false -> chain st <> [] ->
  exists v,
    addTransaction tx st
    = (Return v, with_currentTransactions (currentTransactions st ++ [tx]) st).
Proof.
  intros H Hc. unfold addTransaction. rewrite H. run.
  rewrite getLatestBlock_with_currentTransactions.
  destruct (getLatestBlock_some st Hc) as [tip ->]. run. eauto.
Qed.

Lemma addTransaction_state (tx : obj) (st : State) :
  snd (addTransaction tx st) = st
  \/ (rejected tx = false
      /\ snd (addTransaction tx st)
         = with_currentTransactions (currentTransactions st ++ [tx]) st).
Proof.
  unfold addTransaction. destruct (rejected tx) eqn:H; [now left|right].
  split; [reflexivity|]. run.
  rewrite getLatestBlock_with_currentTransactions.
  now destruct (getLatestBlock st).
Qed.

(** *** The queue invariant *)

Lemma with_currentTransactions_twice (p q : list obj) (st : State) :
  with_currentTransactions p (with_currentTransactions q st)
  = with_currentTransactions p st.
Proof. reflexivity. Qed.

Lemma with_currentTransactions_self (st : State) :
  with_currentTransactions (currentTransactions st) st = st.
Proof. now destruct st. Qed.

Lemma forEach_addTransaction (txs : list obj) :
  forall (acc : list obj) (st : State),
    chain st <> [] ->
    Forall (fun tx => rejected tx = false) txs ->
    forEach addTransaction txs (with_currentTransactions acc st)
    = (Return tt, with_currentTransactions (acc ++ txs) st).
Proof.
  induction txs as [|tx txs IH]; intros acc st Hc Hall; simpl.
  - unfold ret. now rewrite app_nil_r.
  - inversion Hall as [|? ? Htx Hrest]; subst.
    destruct (addTransaction_queued tx (with_currentTransactions acc st) Htx Hc)
      as [v Hv].
    unfold bind. rewrite Hv. simpl. rewrite with_currentTransactions_twice.
    rewrite IH by assumption. now rewrite <- app_assoc.
Qed.

(** On an admissible instance the re-queueing loop restores the queue as
    it was. *)
Lemma reprocessPendingTransactions_id (st : State) :
  admissible st -> reprocessPendingTransactions st = (Return tt, st).
Proof.
  intros [Hc Hall]. unfold reprocessPendingTransactions. run.
  rewrite (forEach_addTransaction _ [] st Hc Hall). simpl.
  now rewrite with_currentTransactions_self.
Qed.

(** *** The chain-validity loop *)





(** *** [replaceChain] on an admissible instance *)

Lemma replaceChain_run (c : list obj) (st : State) :
  admissible st ->
  replaceChain c st
  = if (List.length c <=? List.length (chain st))%nat then (Return (VBool false), st)
    else if negb (isValidChain st c) then (Return (VBool false), st)
    else (Return (VBool true), with_chain c st).
Proof.
  intros [Hc Hall]. unfold replaceChain. run.
  destruct (List.length c <=? List.length (chain st))%nat eqn:Hlen; [reflexivity|].
  destruct (isValidChain st c); simpl; [|reflexivity].
  rewrite reprocessPendingTransactions_id; [reflexivity|].
  split; simpl; [|assumption].
  apply Nat.leb_gt in Hlen. destruct c; [simpl in Hlen; lia|discriminate].
Qed.

(** *** [addBlock] *)

Lemma pendingKey_keyOf (tx : obj) : pendingKey tx = keyOf (VObject tx).
Proof. reflexivity. Qed.

Lemma txKey_run (tx : value) (st : State) :
  txKey tx st
  = if nullish tx then (Throw TypeError, st) else (Return (keyOf tx), st).
Proof.
  unfold txKey, keyOf.
  destruct tx; simpl; try reflexivity;
    match goal with |- context [truthy ?h] => destruct (truthy h) end;
    reflexivity.
Qed.

Lemma mapM_txKey (txs : list value) (st : State) :
  mapM txKey txs st
  = if defined txs then (Return (map keyOf txs), st) else (Throw TypeError, st).
Proof.
  induction txs as [|tx txs IH]; simpl; [reflexivity|].
  unfold bind. rewrite txKey_run. destruct (nullish tx); simpl; [reflexivity|].
  rewrite IH. now destruct (defined txs).
Qed.

Lemma with_difficulty_self (st : State) : with_difficulty (difficulty st) st = st.
Proof. now destruct st. Qed.

Lemma adjustDifficulty_returns (st : State) :
  exists d, adjustDifficulty st = (Return tt, with_difficulty d st).
Proof.
  unfold adjustDifficulty.
  destruct (List.length (chain st) <=? 1)%nat eqn:Hlen.
  { exists (difficulty st). now rewrite with_difficulty_self. }
  apply Nat.leb_gt in Hlen. unfold getLatestBlock.
  destruct (nth_error (chain st) (List.length (chain st) - 1)) eqn:E1.
  2: { apply nth_error_None in E1. lia. }
  destruct (nth_error (chain st) (List.length (chain st) - 2)) eqn:E2.
  2: { apply nth_error_None in E2. lia. }
  destruct (js_sub _ _).
  { exists (difficulty st). now rewrite with_difficulty_self. }
  destruct (2 * z <? blockTime st * 1000); [eauto|].
  destruct (z >? blockTime st * 1000 * 2); [eauto|].
  exists (difficulty st). now rewrite with_difficulty_self.
Qed.

Lemma stamped_other (st : State) (block : obj) (tipHash : value) (k : string) :
  k <> "index" -> k <> "previousHash" ->
  get (stamped st block tipHash) k = get block k.
Proof.
  intros Hi Hp. unfold stamped.
  destruct (negb _); rewrite ?get_set_other by congruence; reflexivity.
Qed.

Lemma addBlock_run (block : obj) (validator signature : value)
      (st : State) (tip : obj) :
  getLatestBlock st = Some tip ->
  let st1 :=
    with_chain (chain st ++ [stamped st block (get tip "hash")]) st in
  addBlock block validator signature st
  = match get block "transactions" with
    | VArray txs =>
        if defined txs then
          (Return (VBool true),
           snd (adjustDifficulty
                  (with_currentTransactions
                     (remaining txs (currentTransactions st)) st1)))
        else (Throw TypeError, st1)
    | _ => (Throw TypeError, st1)
    end.
Proof.
  intros Htip st1. unfold addBlock. run. rewrite Htip. run.
  fold (stamped st block (get tip "hash")). fold st1.
  rewrite stamped_other by discriminate.
  unfold txHashesOf.
  destruct (get block "transactions"); try reflexivity.
  rewrite mapM_txKey. destruct (defined elems); [|reflexivity].
  simpl. fold (remaining elems (currentTransactions st)).
  destruct (adjustDifficulty_returns
              (with_currentTransactions (remaining elems (currentTransactions st)) st1))
    as [d ->].
  reflexivity.
Qed.

(** *** Reachable instances *)

Lemma filter_Forall {A} (P : A -> Prop) (f : A -> bool) (l : list A) :
  Forall P l -> Forall P (filter f l).
Proof.
  intros H. apply Forall_forall. intros x Hx.
  apply filter_In in Hx as [Hx _]. revert x Hx. now apply Forall_forall.
Qed.

Lemma reachable_admissible (st : State) : reachable st -> admissible st.
Proof.
  induction 1 as [now|st tx _ [Hc Hall]|st b v s _ [Hc Hall]|st c _ IH].
  - split; [discriminate|constructor].
  - destruct (addTransaction_state tx st) as [->|[Hr ->]]; [now split|].
    split; [assumption|]. simpl. apply Forall_app. split; [assumption|].
    now constructor.
  - destruct (getLatestBlock_some st Hc) as [tip Htip].
    rewrite (addBlock_run b v s st tip Htip).
    assert (Hne : forall x : obj, chain st ++ [x] <> []).
    { intros x. destruct (chain st); discriminate. }
    destruct (get b "transactions"); simpl; try (split; [apply Hne|assumption]).
    destruct (defined elems); simpl; [|split; [apply Hne|assumption]].
    match goal with |- context [adjustDifficulty ?s] =>
      destruct (adjustDifficulty_returns s) as [d ->] end.
    split; simpl; [apply Hne|now apply filter_Forall].
  - rewrite (replaceChain_run c st IH). destruct IH as [Hc Hall].
    destruct (List.length c <=? List.length (chain st))%nat eqn:Hlen;
      [now split|].
    destruct (isValidChain st c); simpl; [|now split].
    split; simpl; [|assumption].
    apply Nat.leb_gt in Hlen. destruct c; [simpl in Hlen; lia|discriminate].
Qed.

(** *** Equality of values *)

Lemma value_eqb_sound : forall a b : value, value_eqb a b = true -> a = b.
Proof.
  fix IH 1. intros a b.
  destruct a as [| |x|[|x]|x|l1|p1], b as [| |y|[|y]|y|l2|p2];
    simpl; try discriminate; try reflexivity.
  - intros H. apply Bool.eqb_prop in H. now subst.
  - intros H. apply Z.eqb_eq in H. now subst.
  - intros H. apply String.eqb_eq in H. now subst.
  - intros H. f_equal. revert l2 H.
    induction l1 as [|x xs IHl]; intros [|y ys] H; try discriminate;
      [reflexivity|].
    apply andb_true_iff in H as [Hx Hxs].
    f_equal; [now apply IH|now apply IHl].
  - intros H. f_equal. revert p2 H.
    induction p1 as [|[k1 x] xs IHl]; intros [|[k2 y] ys] H; try discriminate;
      [reflexivity|].
    apply andb_true_iff in H as [Hkx Hxs].
    apply andb_true_iff in Hkx as [Hk Hx].
    apply String.eqb_eq in Hk. subst.
    f_equal; [f_equal; now apply IH|now apply IHl].
Qed.

Lemma value_eqb_refl : forall a : value, value_eqb a a = true.
Proof.
  fix IH 1. intros a. destruct a as [| |x|n|x|l|p]; simpl; try reflexivity.
  - now destruct x.
  - destruct n; [reflexivity|apply Z.eqb_refl].
  - apply String.eqb_refl.
  - induction l as [|x xs IHl]; [reflexivity|]. now rewrite IH, IHl.
  - induction p as [|[k x] xs IHl]; [reflexivity|].
    now rewrite String.eqb_refl, IH, IHl.
Qed.

Lemma includes_In (xs : list value) (x : value) :
  includes xs x = true <-> In x xs.
Proof.
  unfold includes, same_value_zero. rewrite existsb_exists. split.
  - intros [y [Hy E]]. apply value_eqb_sound in E. now subst.
  - intros H. exists x. split; [assumption|apply value_eqb_refl].
Qed.

End BlockchainFacts.

(* ================================================================== *)
(** ** The chain model against its specification *)
(* ================================================================== *)

Module BlockchainSpec.

Import JS Call Blockchain ChainProperties BlockchainFacts.

#[local] Open Scope list_scope.

Lemma Qfloor_quotient (a b : Z) :
  0 < b -> Qfloor (inject_Z a / inject_Z b) = a / b.
Proof.
  intros Hb. destruct b as [|p|p]; try lia.
  unfold Qdiv, Qinv, Qmult, inject_Z, Qfloor. simpl.
  now rewrite Z.mul_1_r.
Qed.

(** C6.  At chain height [h] the block reward is
    [blockReward / 2^min(floor(h / halvingInterval), 64)]; in particular
    at height [halvingInterval * k] it is [blockReward / 2^min(k, 64)]. *)
Theorem getCurrentBlockReward_halving (st : State) (k : Z) :
  0 < halvingInterval st ->
  let h := Z.of_nat (List.length (chain st)) in
  getCurrentBlockReward st
  = Some (inject_Z (blockReward st)
          / Qpower 2 (Z.min (h / halvingInterval st) 64))%Q
  /\ (0 <= k -> h = halvingInterval st * k ->
      getCurrentBlockReward st
      = Some (inject_Z (blockReward st) / Qpower 2 (Z.min k 64))%Q).
Proof.
  intros Hpos h.
  assert (Hgen : getCurrentBlockReward st
                 = Some (inject_Z (blockReward st)
                         / Qpower 2 (Z.min (h / halvingInterval st) 64))%Q).
  { unfold getCurrentBlockReward. fold h.
    destruct (Z.eqb_spec (halvingInterval st) 0) as [E|_]; [lia|].
    now rewrite Qfloor_quotient. }
  split; [exact Hgen|].
  intros _ Hk. rewrite Hgen, Hk, Z.mul_comm, Z.div_mul by lia. reflexivity.
Qed.

(** With a halving every second block, the reward at height 2 is
    [50 / 2]. *)
Lemma getCurrentBlockReward_halving_witness :
  getCurrentBlockReward ChainScenario.shortHalving = Some (50 / Qpower 2 1)%Q.
Proof.
  exact (proj2 (getCurrentBlockReward_halving ChainScenario.shortHalving 1 eq_refl)
               ltac:(lia) eq_refl).
Defined.





(** Whatever [replaceChain] answers, the pending pool of a reachable
    instance is the one before the call. *)
Lemma replaceChain_keeps_queue (st : State) (c : list obj) :
  reachable st ->
  currentTransactions (snd (replaceChain c st)) = currentTransactions st.
Proof.
  intros Hreach.
  rewrite (replaceChain_run c st (reachable_admissible st Hreach)).
  destruct (List.length c <=? List.length (chain st))%nat; [reflexivity|].
  now destruct (isValidChain st c).
Qed.

(** C8.  The node has [transfer] pending and adopts a chain whose second
    block includes [transfer]: the chain is replaced and [transfer] is
    still pending, although the pruning of [addBlock] would drop it. *)
Theorem replaceChain_requeues_included_transaction :
  let outcome := replaceChain ChainScenario.fork ChainScenario.nodeWithTransfer in
  currentTransactions ChainScenario.nodeWithTransfer = [ChainScenario.transfer]
  /\ get ChainScenario.blockWithTransfer "transactions"
     = VArray [VObject ChainScenario.transfer]
  /\ fst outcome = Return (VBool true)
  /\ chain (snd outcome) = ChainScenario.fork
  /\ currentTransactions (snd outcome) = [ChainScenario.transfer]
  /\ remaining [VObject ChainScenario.transfer] [ChainScenario.transfer] = [].
Proof. repeat split. Qed.




(** C10, as the claim states it, fails: a block without a [transactions]
    array makes [addBlock] throw a [TypeError]. *)
Lemma addBlock_throws_without_transactions :
  ~ (forall (st : State) (block : obj) (validator signature : value),
        reachable st ->
        fst (addBlock block validator signature st) = Return (VBool true)
        /\ List.length (chain (snd (addBlock block validator signature st)))
           = S (List.length (chain st))).
Proof.
  intros H.
  destruct (H ChainScenario.node ChainScenario.emptyObject VUndefined VUndefined
              (reach_constructor 0)) as [Hr _].
  discriminate Hr.
Qed.

(** C10, amended.  For every block whose [transactions] is an array
    without [undefined] or [null] elements, whatever its other fields and
    whatever [validator] and [signature] are passed, [addBlock] returns
    [true] and the chain grows by exactly one block; neither
    [isValidBlockStructure] nor the signature takes part. *)
Theorem addBlock_returns_true (st : State) (block : obj)
        (validator signature : value) (txs : list value) :
  reachable st ->
  get block "transactions" = VArray txs ->
  defined txs = true ->
  fst (addBlock block validator signature st) = Return (VBool true)
  /\ List.length (chain (snd (addBlock block validator signature st)))
     = S (List.length (chain st))
  /\ (forall validator' signature',
        addBlock block validator' signature' st
        = addBlock block validator signature st).
Proof.
  intros Hreach Htxs Hdef.
  destruct (reachable_admissible st Hreach) as [Hc _].
  destruct (getLatestBlock_some st Hc) as [tip Htip].
  split; [|split].
  - rewrite (addBlock_run block validator signature st tip Htip).
    now rewrite Htxs, Hdef.
  - rewrite (addBlock_run block validator signature st tip Htip).
    rewrite Htxs, Hdef.
    match goal with |- context [adjustDifficulty ?s] =>
      destruct (adjustDifficulty_returns s) as [d ->] end.
    simpl. rewrite length_app. simpl. lia.
  - intros v' s'.
    now rewrite (addBlock_run block v' s' st tip Htip),
                (addBlock_run block validator signature st tip Htip).
Qed.

(** A block of invalid structure is appended to a fresh node. *)
Lemma addBlock_returns_true_witness :
  isValidBlockStructure ChainScenario.bareBlock = false
  /\ fst (addBlock ChainScenario.bareBlock VUndefined VUndefined ChainScenario.node)
     = Return (VBool true)
  /\ List.length (chain (snd (addBlock ChainScenario.bareBlock VUndefined VUndefined
                                       ChainScenario.node)))
     = 2%nat.
Proof.
  destruct (addBlock_returns_true ChainScenario.node ChainScenario.bareBlock
              VUndefined VUndefined [] (reach_constructor 0) eq_refl eq_refl)
    as [Hr [Hlen _]].
  split; [reflexivity|]. split; [exact Hr|exact Hlen].
Defined.

End BlockchainSpec.

(* ================================================================== *)
(** ** Properties of the vote ledger and of the ranking *)
(* ================================================================== *)

Module DPoSFacts.

Import DPoS LedgerProperties.

#[local] Open Scope list_scope.

(** *** The ledger *)













(** *** The stable sort *)

Lemma insert_perm (e : string * Z) (l : list (string * Z)) :
  Permutation (insert e l) (e :: l).
Proof.
  induction l as [|x l IH]; simpl; [reflexivity|].
  destruct (byStake e x <=? 0); [reflexivity|].
  rewrite IH. apply perm_swap.
Qed.

Lemma sort_perm (l : list (string * Z)) : Permutation (sort l) l.
Proof.
  induction l as [|e l IH]; simpl; [reflexivity|].
  rewrite insert_perm. now constructor.
Qed.

Lemma insert_sorted (e : string * Z) (l : list (string * Z)) :
  StronglySorted descending l -> StronglySorted descending (insert e l).
Proof.
  induction 1 as [|x l Hs IH Hx]; simpl.
  - repeat constructor.
  - unfold byStake. destruct (Z.leb_spec (snd x - snd e) 0).
    + constructor; [now constructor|].
      constructor; [unfold descending; lia|].
      eapply Forall_impl; [|exact Hx]. unfold descending. intros. lia.
    + constructor; [assumption|].
      rewrite insert_perm. constructor; [unfold descending; lia|assumption].
Qed.

Lemma sort_sorted (l : list (string * Z)) : StronglySorted descending (sort l).
Proof.
  induction l as [|e l IH]; simpl; [constructor|now apply insert_sorted].
Qed.

Lemma insert_stable (s : Z) (e : string * Z) (l : list (string * Z)) :
  StronglySorted descending l ->
  filter (withStake s) (insert e l) = filter (withStake s) (e :: l).
Proof.
  induction 1 as [|x l Hs IH Hx]; [reflexivity|].
  simpl insert. unfold byStake. destruct (Z.leb_spec (snd x - snd e) 0) as [Hle|Hgt].
  - reflexivity.
  - cbn [filter]. rewrite IH. cbn [filter]. unfold withStake.
    destruct (Z.eqb_spec (snd x) s), (Z.eqb_spec (snd e) s); try reflexivity.
    lia.
Qed.

Lemma sort_stable (s : Z) (l : list (string * Z)) :
  filter (withStake s) (sort l) = filter (withStake s) l.
Proof.
  induction l as [|e l IH]; [reflexivity|].
  simpl sort. rewrite insert_stable by apply sort_sorted.
  simpl. now rewrite IH.
Qed.

(** In a sorted list, what comes before a cut stands before what comes
    after it. *)
Lemma sorted_cut {A} (R : A -> A -> Prop) (l : list A) :
  StronglySorted R l ->
  forall (n : nat) (x y : A),
    In x (firstn n l) -> In y (skipn n l) -> R x y.
Proof.
  induction 1 as [|a l Hs IH Ha]; intros n x y Hx Hy.
  - rewrite firstn_nil in Hx. contradiction.
  - destruct n as [|n]; simpl in Hx, Hy; [contradiction|].
    destruct Hx as [<-|Hx]; [|now apply (IH n)].
    rewrite Forall_forall in Ha. apply Ha.
    rewrite <- (firstn_skipn n l). apply in_or_app. now right.
Qed.

End DPoSFacts.

(* ================================================================== *)
(** ** The validator registry and the scheduler against their
       specification *)
(* ================================================================== *)

Module DPoSSpec.

Import DPoS LedgerProperties RegistryScenario DPoSFacts.

#[local] Open Scope list_scope.




(** C7, as the claim states it, fails: two delegates of equal stake are
    ranked in the order of their first vote, so no order on addresses
    decides the tie. *)
Lemma updateDelegates_ties_follow_insertion :
  ~ (exists precedes : string -> string -> Prop,
        (forall a b, precedes a b -> precedes b a -> a = b)
        /\ tiesBrokenBy precedes).
Proof.
  intros [precedes [Hanti Hties]].
  assert (Hab : precedes "A" "B").
  { apply (Hties [RegisterVote "voter" "A" 100; RegisterVote "voter" "B" 100]
                 0 0%nat 1%nat "A" "B"); [lia|reflexivity..]. }
  assert (Hba : precedes "B" "A").
  { apply (Hties [RegisterVote "voter" "B" 100; RegisterVote "voter" "A" 100]
                 0 0%nat 1%nat "B" "A"); [lia|reflexivity..]. }
  discriminate (Hanti _ _ Hab Hba).
Qed.

(** C7, amended.  [updateDelegates] ranks the ledger entries by stake,
    descending, entries of equal stake staying in the order of the ledger
    (the order of insertion, not an order on addresses); [active] is the
    first [delegateCount] addresses of the ranking and [standby] the
    rest, so no standby delegate has more stake than an active one.  With
    votes of 20000 for A and 15000 for B and one seat, [active = [A]] and
    [standby = [B]]. *)
Theorem updateDelegates_ranks_by_stake (now : Z) (st : State) :
  let st' := updateDelegates now st in
  let ranked := sort (votes st) in
  activeDelegates st' = map fst (firstn (delegateCount st) ranked)
  /\ standbyDelegates st' = map fst (skipn (delegateCount st) ranked)
  /\ Permutation ranked (votes st)
  /\ StronglySorted descending ranked
  /\ (forall a b,
        In a (firstn (delegateCount st) ranked) ->
        In b (skipn (delegateCount st) ranked) ->
        snd b <= snd a)
  /\ (forall s, filter (withStake s) ranked = filter (withStake s) (votes st))
  /\ (let example :=
        registerVote "voter-2" "B" 15000
          (registerVote "voter-1" "A" 20000 oneSeat) in
      activeDelegates (updateDelegates now example) = ["A"]
      /\ standbyDelegates (updateDelegates now example) = ["B"]).
Proof.
  intros st' ranked. subst st' ranked.
  repeat match goal with |- _ /\ _ => split end.
  - simpl. apply firstn_map.
  - simpl. apply skipn_map.
  - apply sort_perm.
  - apply sort_sorted.
  - intros a b Ha Hb.
    exact (sorted_cut descending _ (sort_sorted (votes st)) _ a b Ha Hb).
  - intros s. apply sort_stable.
  - intros example. subst example. split; reflexivity.
Qed.

(** C2.  [isAuthorized] answers [true] for every address and time; for
    "mallory", who is not an active delegate while "alice" holds the
    slot, it answers [true] where the check of the schedule, written
    after the [return], gives [false]. *)
Theorem isAuthorized_accepts_everyone :
  (forall validator timestamp st, isAuthorized validator timestamp st = true)
  /\ activeDelegates aliceScheduled = ["alice"]
  /\ delegateSchedule aliceScheduled = ["alice"]
  /\ isAuthorized "mallory" 0 aliceScheduled = true
  /\ isAuthorized_afterReturn "mallory" 0 aliceScheduled = false
  /\ isAuthorized_afterReturn "alice" 0 aliceScheduled = true.
Proof. repeat split. Qed.

(** C3.  Two registries with the same ledger and the same active set
    draw their schedules at clock readings two milliseconds apart, and
    the schedules differ: the shuffle is seeded by the clock. *)
Theorem createDelegateSchedule_follows_clock :
  let ranked := updateDelegates 1700000000000 electorate in
  let node1 := createDelegateSchedule 1700000000000 ranked in
  let node2 := createDelegateSchedule 1700000000002 ranked in
  votes node1 = votes node2
  /\ activeDelegates node1 = ["A"; "B"; "C"]
  /\ activeDelegates node2 = ["A"; "B"; "C"]
  /\ delegateSchedule node1 = ["C"; "B"; "A"]
  /\ delegateSchedule node2 = ["B"; "C"; "A"].
Proof. vm_compute. repeat split. Qed.

End DPoSSpec.

(* ================================================================== *)
(** ** Further properties of the chain model *)
(* ================================================================== *)

Module ChainExtras.

Import JS Call Blockchain ChainProperties ChainNotions BlockchainFacts BlockchainSpec
       Validation.

#[local] Open Scope list_scope.

(** *** What no method changes *)

Lemma reachable_constants (st : State) :
  reachable st ->
  blockTime st = 3 /\ maxSupply st = 100000000
  /\ blockReward st = 50 /\ halvingInterval st = 840000.
Proof.
  induction 1 as [now|st tx Hreach IH|st b v s Hreach IH|st c Hreach IH].
  - repeat split.
  - destruct (addTransaction_state tx st) as [->|[_ ->]]; exact IH.
  - destruct (reachable_admissible st Hreach) as [Hc _].
    destruct (getLatestBlock_some st Hc) as [tip Htip].
    rewrite (addBlock_run b v s st tip Htip).
    destruct (get b "transactions"); try exact IH.
    destruct (defined elems); [|exact IH].
    match goal with |- context [adjustDifficulty ?x] =>
      destruct (adjustDifficulty_returns x) as [d ->] end.
    exact IH.
  - rewrite (replaceChain_run c st (reachable_admissible st Hreach)).
    destruct (List.length c <=? List.length (chain st))%nat; [exact IH|].
    destruct (isValidChain st c); exact IH.
Qed.

(** *** Difficulty *)

Lemma adjusted_at_least_one (bt d : Z) (e : number) :
  1 <= d -> 1 <= adjusted bt d e.
Proof.
  intros Hd. unfold adjusted. destruct e as [|t]; [assumption|].
  destruct (2 * t <? bt * 1000); [lia|].
  destruct (t >? bt * 1000 * 2); lia.
Qed.

Lemma adjustDifficulty_pushed (st : State) (tip pushed : obj) (p : list obj) :
  getLatestBlock st = Some tip ->
  adjustDifficulty
    (with_currentTransactions p (with_chain (chain st ++ [pushed]) st))
  = (Return tt,
     with_difficulty
       (adjusted (blockTime st) (difficulty st)
                 (js_sub (get pushed "timestamp") (get tip "timestamp")))
       (with_currentTransactions p (with_chain (chain st ++ [pushed]) st))).
Proof.
  intros Htip. unfold getLatestBlock in Htip.
  assert (Hlen : (0 < List.length (chain st))%nat).
  { destruct (chain st); [discriminate|simpl; lia]. }
  unfold adjustDifficulty, getLatestBlock, adjusted.
  cbn [chain currentTransactions difficulty blockTime
       with_currentTransactions with_chain].
  rewrite length_app. cbn [List.length].
  destruct (List.length (chain st) + 1 <=? 1)%nat eqn:E;
    [apply Nat.leb_le in E; lia|].
  replace (List.length (chain st) + 1 - 1)%nat with (List.length (chain st))
    by lia.
  rewrite nth_error_app2 by lia. rewrite Nat.sub_diag. cbn [nth_error].
  replace (List.length (chain st) + 1 - 2)%nat
    with (List.length (chain st) - 1)%nat by lia.
  rewrite nth_error_app1 by lia. rewrite Htip.
  destruct (js_sub (get pushed "timestamp") (get tip "timestamp")) as [|t];
    [reflexivity|].
  destruct (2 * t <? blockTime st * 1000); [reflexivity|].
  destruct (t >? blockTime st * 1000 * 2); reflexivity.
Qed.




(** X2.  On every instance that the constructor and the methods produce,
    the difficulty is at least 1. *)
Theorem difficulty_at_least_one (st : State) :
  reachable st -> 1 <= difficulty st.
Proof.
  induction 1 as [now|st tx Hreach IH|st b v s Hreach IH|st c Hreach IH].
  - simpl. lia.
  - destruct (addTransaction_state tx st) as [->|[_ ->]]; exact IH.
  - destruct (reachable_admissible st Hreach) as [Hc _].
    destruct (getLatestBlock_some st Hc) as [tip Htip].
    rewrite (addBlock_run b v s st tip Htip).
    destruct (get b "transactions"); try exact IH.
    destruct (defined elems); [|exact IH].
    rewrite (adjustDifficulty_pushed st tip _ _ Htip). simpl.
    now apply adjusted_at_least_one.
  - rewrite (replaceChain_run c st (reachable_admissible st Hreach)).
    destruct (List.length c <=? List.length (chain st))%nat; [exact IH|].
    destruct (isValidChain st c); exact IH.
Qed.

Lemma difficulty_at_least_one_witness :
  1 <= difficulty ChainScenario.nodeOnFork7.
Proof.
  exact (difficulty_at_least_one ChainScenario.nodeOnFork7
           (reach_replaceChain _ _ (reach_constructor 0))).
Defined.

(** *** Validity of the local chain *)

(** X3.  When [replaceChain] returns [true], [isChainValid()] holds on
    the instance afterwards. *)
Theorem replaceChain_installs_valid_chain (st : State) (c : list obj) :
  reachable st ->
  fst (replaceChain c st) = Return (VBool true) ->
  isChainValid (snd (replaceChain c st)) = true.
Proof.
  intros Hreach.
  rewrite (replaceChain_run c st (reachable_admissible st Hreach)).
  destruct (List.length c <=? List.length (chain st))%nat; [discriminate|].
  destruct (isValidChain st c) eqn:Hv; simpl; [|discriminate].
  intros _. unfold isChainValid. simpl.
  unfold isValidChain in Hv.
  now destruct (negb (option_string_eqb _ _)).
Qed.

Lemma replaceChain_installs_valid_chain_witness :
  isChainValid (snd (replaceChain ChainScenario.fork7 ChainScenario.node))
  = true.
Proof.
  exact (replaceChain_installs_valid_chain ChainScenario.node
           ChainScenario.fork7 (reach_constructor 0) eq_refl).
Defined.





(** X21.  A chain that [replaceChain] has adopted is refused when it is
    offered again: the second call returns [false] and changes
    nothing. *)
Theorem replaceChain_refuses_the_same_chain (st : State) (c : list obj) :
  reachable st ->
  fst (replaceChain c st) = Return (VBool true) ->
  replaceChain c (snd (replaceChain c st))
  = (Return (VBool false), snd (replaceChain c st)).
Proof.
  intros Hreach Hacc.
  assert (Hreach' : reachable (snd (replaceChain c st)))
    by now apply reach_replaceChain.
  rewrite (replaceChain_run c _ (reachable_admissible _ Hreach')).
  rewrite (replaceChain_run c st (reachable_admissible st Hreach)) in *.
  destruct (List.length c <=? List.length (chain st))%nat;
    [discriminate Hacc|].
  destruct (isValidChain st c); simpl in *; [|discriminate Hacc].
  now rewrite Nat.leb_refl.
Qed.

Lemma replaceChain_refuses_the_same_chain_witness :
  replaceChain ChainScenario.fork7 ChainScenario.nodeOnFork7
  = (Return (VBool false), ChainScenario.nodeOnFork7).
Proof.
  exact (replaceChain_refuses_the_same_chain ChainScenario.node
           ChainScenario.fork7 (reach_constructor 0) eq_refl).
Defined.

(** *** The two transaction checks *)



(** *** The block reward *)

Lemma reward_value (st : State) :
  reachable st ->
  getCurrentBlockReward st
  = Some (inject_Z 50 / Qpower 2 (halvingsAt (List.length (chain st))))%Q.
Proof.
  intros Hreach.
  destruct (reachable_constants st Hreach) as [_ [_ [Hr Hh]]].
  unfold getCurrentBlockReward, halvingsAt. rewrite Hr, Hh. simpl Z.eqb.
  cbv iota. now rewrite Qfloor_quotient by lia.
Qed.

Lemma halvingsAt_nonneg (n : nat) : 0 <= halvingsAt n.
Proof.
  unfold halvingsAt. apply Z.min_glb; [|lia].
  apply Z.div_pos; lia.
Qed.

Lemma halvingsAt_mono (n m : nat) :
  (n <= m)%nat -> halvingsAt n <= halvingsAt m.
Proof.
  intros H. unfold halvingsAt. apply Z.min_le_compat_r.
  apply Z.div_le_mono; lia.
Qed.

Lemma power_of_two_positive (z : Z) : (0 < Qpower 2 z)%Q.
Proof. apply Qpower_0_lt. reflexivity. Qed.

Lemma reward_antitone (a b : Z) :
  a <= b -> (inject_Z 50 / Qpower 2 b <= inject_Z 50 / Qpower 2 a)%Q.
Proof.
  intros Hab.
  apply Qle_shift_div_r; [apply power_of_two_positive|].
  apply Qle_trans with (inject_Z 50 / Qpower 2 a * Qpower 2 a)%Q.
  - rewrite Qmult_comm, Qmult_div_r; [apply Qle_refl|].
    intros E. pose proof (power_of_two_positive a) as H.
    rewrite E in H. discriminate H.
  - apply Qmult_le_l.
    + apply Qlt_shift_div_l; [apply power_of_two_positive|reflexivity].
    + apply Qpower_le_compat_l; [assumption|discriminate].
Qed.

(** X5.  On every instance that the constructor and the methods produce,
    [getCurrentBlockReward()] is a number, positive and at most 50; it is
    50 while the chain is shorter than 840000 blocks, and a longer chain
    never has a larger reward. *)
Theorem reward_positive_bounded_and_falling (st st' : State) :
  reachable st -> reachable st' ->
  (List.length (chain st) <= List.length (chain st'))%nat ->
  exists q q' : Q,
    getCurrentBlockReward st = Some q
    /\ getCurrentBlockReward st' = Some q'
    /\ (0 < q' /\ q' <= q /\ q <= inject_Z 50)%Q
    /\ (Z.of_nat (List.length (chain st)) < 840000 -> (q == inject_Z 50)%Q).
Proof.
  intros Hst Hst' Hlen.
  exists (inject_Z 50 / Qpower 2 (halvingsAt (List.length (chain st))))%Q,
         (inject_Z 50 / Qpower 2 (halvingsAt (List.length (chain st'))))%Q.
  split; [now apply reward_value|]. split; [now apply reward_value|].
  split; [split; [|split]|].
  - apply Qlt_shift_div_l; [apply power_of_two_positive|reflexivity].
  - apply reward_antitone. now apply halvingsAt_mono.
  - apply Qle_trans with (inject_Z 50 / Qpower 2 0)%Q.
    + apply reward_antitone. apply halvingsAt_nonneg.
    + discriminate.
  - intros Hshort. unfold halvingsAt.
    rewrite Z.div_small by lia. reflexivity.
Qed.

(** The reward of a fresh node and of the node after it adopted a chain
    of two blocks. *)
Lemma reward_positive_bounded_and_falling_witness :
  exists q q' : Q,
    getCurrentBlockReward ChainScenario.node = Some q
    /\ getCurrentBlockReward ChainScenario.nodeOnFork7 = Some q'
    /\ (0 < q' /\ q' <= q /\ q <= inject_Z 50)%Q.
Proof.
  destruct (reward_positive_bounded_and_falling
              ChainScenario.node ChainScenario.nodeOnFork7
              (reach_constructor 0)
              (reach_replaceChain _ _ (reach_constructor 0))
              ltac:(simpl; lia))
    as [q [q' [H1 [H2 [H3 _]]]]].
  exists q, q'. split; [exact H1|]. split; [exact H2|exact H3].
Defined.

End ChainExtras.

(* ================================================================== *)
(** ** Further properties of the registry and of the scheduler *)
(* ================================================================== *)

Module RegistryExtras.

Import DPoS LedgerProperties DPoSFacts Producer.

#[local] Open Scope list_scope.

(** *** The shuffle *)

Lemma update_extract (l : list string) (i : nat) (a x : string) :
  nth_error l i = Some a -> Permutation (x :: l) (a :: update l i x).
Proof.
  revert i. induction l as [|y l IH]; intros [|i] H; simpl in H;
    try discriminate.
  - injection H as ->. simpl. apply perm_swap.
  - simpl. rewrite perm_swap. rewrite (IH i H). apply perm_swap.
Qed.

Lemma nth_error_update (l : list string) (i j : nat) (a b : string) :
  nth_error l i = Some a -> nth_error l j = Some b ->
  nth_error (update l i b) j = Some b.
Proof.
  revert i j. induction l as [|y l IH]; intros [|i] [|j] Hi Hj;
    simpl in *; try discriminate; try assumption.
  - reflexivity.
  - now apply (IH i j).
Qed.

Lemma swap_perm (l : list string) (i j : nat) : Permutation (swap l i j) l.
Proof.
  unfold swap.
  destruct (nth_error l i) as [a|] eqn:Hi; [|reflexivity].
  destruct (nth_error l j) as [b|] eqn:Hj; [|reflexivity].
  apply Permutation_cons_inv with (a := b).
  rewrite (update_extract l i a b Hi).
  symmetry. apply update_extract. now apply (nth_error_update l i j a b).
Qed.

Lemma shuffleFrom_perm (seed : string) (i : nat) :
  forall delegates, Permutation (shuffleFrom seed i delegates) delegates.
Proof.
  induction i as [|i IH]; intros delegates; simpl; [reflexivity|].
  rewrite IH. apply swap_perm.
Qed.

Lemma hex_value_nonneg (c : ascii) (d : Z) : hex_value c = Some d -> 0 <= d.
Proof.
  unfold hex_value.
  destruct (Z.leb_spec 48 (Z.of_nat (nat_of_ascii c)));
    destruct (Z.leb_spec (Z.of_nat (nat_of_ascii c)) 57);
    destruct (Z.leb_spec 97 (Z.of_nat (nat_of_ascii c)));
    destruct (Z.leb_spec (Z.of_nat (nat_of_ascii c)) 102);
    destruct (Z.leb_spec 65 (Z.of_nat (nat_of_ascii c)));
    destruct (Z.leb_spec (Z.of_nat (nat_of_ascii c)) 70);
    cbn [andb]; intros Hv; try discriminate Hv; injection Hv as <-; lia.
Qed.

Lemma parseInt16_from_nonneg (s : string) :
  forall acc, 0 <= acc -> 0 <= parseInt16_from s acc.
Proof.
  induction s as [|c s IH]; intros acc Hacc; cbn [parseInt16_from];
    [assumption|].
  destruct (hex_value c) as [d|] eqn:Hd; [|assumption].
  apply IH. apply hex_value_nonneg in Hd. lia.
Qed.

(** Every swap of the shuffle exchanges position [i] with a position
    from 0 to [i]. *)
Lemma shuffle_index_in_range (seed : string) (i : nat) :
  0 <= Z.rem (parseInt16 (substring (i mod 32) 8 seed)) (Z.of_nat i + 1)
    <= Z.of_nat i.
Proof.
  pose proof (parseInt16_from_nonneg (substring (i mod 32) 8 seed) 0
                ltac:(lia)) as H.
  fold (parseInt16 (substring (i mod 32) 8 seed)) in H.
  pose proof (Z.rem_bound_pos _ (Z.of_nat i + 1) H ltac:(lia)). lia.
Qed.

(** X6.  Whatever the clock reads, [shuffleDelegates] returns a
    permutation of the delegates it is given: nobody is dropped or
    duplicated, and a list of fewer than two delegates comes back as it
    is. *)
Theorem shuffleDelegates_permutes (now : Z) (delegates : list string) :
  Permutation (shuffleDelegates now delegates) delegates
  /\ List.length (shuffleDelegates now delegates) = List.length delegates
  /\ ((List.length delegates <= 1)%nat ->
      shuffleDelegates now delegates = delegates).
Proof.
  assert (H : Permutation (shuffleDelegates now delegates) delegates)
    by apply shuffleFrom_perm.
  split; [exact H|]. split; [now apply Permutation_length|].
  intros Hlen. unfold shuffleDelegates.
  replace (List.length delegates - 1)%nat with 0%nat by lia. reflexivity.
Qed.

(** X7.  After [updateDelegates], the active and the standby delegates
    together are the delegates of the ledger, each once; the active ones
    are [delegateCount] many, or all when the ledger has fewer; the
    schedule is a permutation of the active delegates and the cursor is at
    its start; the ledger is untouched. *)
Theorem updateDelegates_partitions_ledger (now : Z) (st : State) :
  let st' := updateDelegates now st in
  Permutation (activeDelegates st' ++ standbyDelegates st')
              (map fst (votes st))
  /\ List.length (activeDelegates st')
     = Nat.min (delegateCount st) (List.length (votes st))
  /\ Permutation (delegateSchedule st') (activeDelegates st')
  /\ currentProducer st' = 0
  /\ votes st' = votes st.
Proof.
  intros st'. subst st'. simpl.
  repeat match goal with |- _ /\ _ => split end; try reflexivity.
  - rewrite firstn_skipn. apply Permutation_map, sort_perm.
  - rewrite length_firstn, length_map.
    now rewrite (Permutation_length (sort_perm (votes st))).
  - apply shuffleFrom_perm.
Qed.

(** *** The cursor *)

Lemma with_cursor_self (st : State) :
  with_cursor (currentProducer st) st = st.
Proof. now destruct st. Qed.

Lemma getNextProducer_in_range (st : State) (c : nat) (x : string) :
  currentProducer st = Z.of_nat c ->
  nth_error (delegateSchedule st) c = Some x ->
  getNextProducer st
  = (Some x,
     Some (with_cursor
             (Z.of_nat ((c + 1) mod List.length (delegateSchedule st))) st)).
Proof.
  intros Hc Hx.
  assert (Hlt : (c < List.length (delegateSchedule st))%nat).
  { apply nth_error_Some. congruence. }
  unfold getNextProducer, scheduled, advanced, assignCursor. rewrite Hc.
  destruct (Z.ltb_spec (Z.of_nat c) 0); [lia|].
  rewrite Nat2Z.id, Hx.
  destruct (Z.eqb_spec (Z.of_nat (List.length (delegateSchedule st))) 0);
    [lia|].
  rewrite Z.rem_mod_nonneg by lia.
  rewrite Nat2Z.inj_mod, Nat2Z.inj_add. reflexivity.
Qed.

Lemma skipn_cons_nth (l : list string) (c : nat) (x : string) :
  nth_error l c = Some x -> skipn c l = x :: skipn (S c) l.
Proof.
  revert c. induction l as [|y l IH]; intros [|c] Hx; simpl in Hx;
    try discriminate.
  - now injection Hx as ->.
  - simpl. now apply IH.
Qed.

Lemma nextProducers_run (k : nat) :
  forall (st : State) (c : nat),
    currentProducer st = Z.of_nat c ->
    (c < List.length (delegateSchedule st))%nat ->
    (c + k <= List.length (delegateSchedule st))%nat ->
    nextProducers k st
    = (map Some (firstn k (skipn c (delegateSchedule st))),
       Some (with_cursor
               (Z.of_nat ((c + k) mod List.length (delegateSchedule st))) st)).
Proof.
  induction k as [|k IH]; intros st c Hc Hlt Hle.
  - cbn [nextProducers firstn map].
    rewrite Nat.add_0_r, Nat.mod_small by assumption.
    now rewrite <- Hc, with_cursor_self.
  - destruct (nth_error (delegateSchedule st) c) as [x|] eqn:Hx.
    2: { apply nth_error_None in Hx. lia. }
    cbn [nextProducers]. rewrite (getNextProducer_in_range st c x Hc Hx).
    rewrite (skipn_cons_nth _ _ _ Hx). cbn [firstn map].
    destruct (Nat.eq_dec (c + 1) (List.length (delegateSchedule st)))
      as [Hend|Hmid].
    + assert (k = 0)%nat as -> by lia. reflexivity.
    + assert (Hc1 : ((c + 1) mod List.length (delegateSchedule st) = S c)%nat)
        by (rewrite Nat.mod_small; lia).
      rewrite Hc1.
      rewrite (IH (with_cursor (Z.of_nat (S c)) st) (S c) eq_refl
                 ltac:(cbn; lia) ltac:(cbn; lia)).
      cbn [delegateSchedule with_cursor with_schedule].
      now replace (S c + k)%nat with (c + S k)%nat by lia.
Qed.

(** X8.  After [createDelegateSchedule], as many calls of
    [getNextProducer] as there are active delegates return every active
    delegate exactly once, in the order of the schedule, and leave the
    cursor where it started. *)
Theorem getNextProducer_round (now : Z) (st : State) :
  activeDelegates st <> [] ->
  let st1 := createDelegateSchedule now st in
  nextProducers (List.length (activeDelegates st)) st1
  = (map Some (delegateSchedule st1), Some st1)
  /\ Permutation (delegateSchedule st1) (activeDelegates st).
Proof.
  intros Hne st1.
  assert (Hperm : Permutation (delegateSchedule st1) (activeDelegates st))
    by apply shuffleFrom_perm.
  split; [|exact Hperm].
  pose proof (Permutation_length Hperm) as Hlen.
  assert (Hpos : (0 < List.length (activeDelegates st))%nat).
  { destruct (activeDelegates st); [contradiction|simpl; lia]. }
  rewrite <- Hlen in *.
  assert (Hrun := nextProducers_run (List.length (delegateSchedule st1))
                    st1 0%nat eq_refl Hpos (Nat.le_refl _)).
  rewrite Hrun. cbn [skipn Nat.add]. rewrite firstn_all.
  rewrite Nat.Div0.mod_same. reflexivity.
Qed.

Lemma getNextProducer_round_witness :
  nextProducers 3 (createDelegateSchedule 1700000000000
                     (updateDelegates 0 RegistryScenario.electorate))
  = ([Some "C"; Some "B"; Some "A"],
     Some (createDelegateSchedule 1700000000000
             (updateDelegates 0 RegistryScenario.electorate))).
Proof.
  pose proof (getNextProducer_round 1700000000000
                (updateDelegates 0 RegistryScenario.electorate)
                ltac:(discriminate)) as [H _].
  vm_compute in H. vm_compute. exact H.
Defined.

(** X9.  With an empty schedule [getNextProducer] returns [undefined],
    and it and [handleMissedBlock] leave the cursor [NaN]. *)
Theorem empty_schedule_loses_cursor (st : State) (missed : string) :
  delegateSchedule st = [] ->
  getNextProducer st = (None, None) /\ handleMissedBlock missed st = None.
Proof.
  intros H. unfold getNextProducer, handleMissedBlock, scheduled, advanced.
  rewrite H. simpl. destruct (currentProducer st <? 0); split;
    try reflexivity; now destruct (Z.to_nat (currentProducer st)).
Qed.

Lemma empty_schedule_loses_cursor_witness :
  getNextProducer (constructor None None None) = (None, None).
Proof.
  exact (proj1 (empty_schedule_loses_cursor (constructor None None None)
                  "alice" eq_refl)).
Defined.



(** *** Stakes *)

















(** *** Finality *)

(** X15.  [getFinalizationTime()] is a whole number of block times: the
    least number of blocks that is at least two thirds of
    [delegateCount]. *)
Theorem getFinalizationTime_two_thirds (st : State) :
  exists blocks : Z,
    getFinalizationTime st = blocks * blockTime st * 1000
    /\ 2 * Z.of_nat (delegateCount st) <= 3 * blocks
       < 2 * Z.of_nat (delegateCount st) + 3.
Proof.
  unfold getFinalizationTime.
  eexists. split; [reflexivity|].
  set (n := 2 * Z.of_nat (delegateCount st)).
  replace (Qceiling (inject_Z n / inject_Z 3)) with (- (- n / 3)).
  2: { unfold Qceiling, Qfloor, Qdiv, Qinv, Qmult, Qopp, inject_Z.
       cbn [Qnum Qden]. now rewrite Z.mul_1_r. }
  subst n.
  pose proof (Z.div_mod (- (2 * Z.of_nat (delegateCount st))) 3 ltac:(lia)).
  pose proof (Z.mod_pos_bound (- (2 * Z.of_nat (delegateCount st))) 3
                ltac:(lia)).
  lia.
Qed.

End RegistryExtras.

(* ================================================================== *)
(** ** Block creation and the production tick *)
(* ================================================================== *)

Module NodeExtras.

Import JS Call Blockchain ChainProperties ChainNotions BlockchainFacts
       ChainExtras.

#[local] Open Scope list_scope.

(** X16.  [createBlock] returns a block with index 0, the clock reading
    as timestamp and the transactions, previous hash and validator it was
    given; the stored hash is [calculateBlockHash] of the block itself
    and the stored signature is [signBlock] of it.  The block has a valid
    structure exactly when the transactions are an object and the
    previous hash and the validator are strings.  The clock reading
    becomes the last block time, so the next block is due one block time
    later. *)
Theorem createBlock_builds_hashed_block
        (now : Z) (transactions previousHash validator privateKey : value)
        (st : DPoS.State) :
  let block := fst (Producer.createBlock now transactions previousHash
                                         validator privateKey st) in
  let st' := snd (Producer.createBlock now transactions previousHash
                                       validator privateKey st) in
  get block "index" = VNum 0
  /\ get block "timestamp" = VNum now
  /\ get block "transactions" = transactions
  /\ get block "previousHash" = previousHash
  /\ get block "validator" = validator
  /\ get block "hash" = VString (Producer.calculateBlockHash block)
  /\ get block "signature" = VString (Producer.signBlock block privateKey)
  /\ isValidBlockStructure block
     = (typeof transactions =? "object")%string
       && (typeof previousHash =? "string")%string
       && (typeof validator =? "string")%string
  /\ DPoS.lastBlockTime st' = now
  /\ (forall t, Producer.isTimeForNextBlock t st'
                = (t - now >=? DPoS.blockTime st * 1000)).
Proof.
  intros block st'. subst block st'.
  repeat match goal with |- _ /\ _ => split end; try reflexivity.
  unfold isValidBlockStructure. cbn.
  now rewrite andb_true_r.
Qed.

(** *** The production tick *)

Lemma defined_objects (pool : list obj) : defined (map VObject pool) = true.
Proof. induction pool as [|tx pool IH]; [reflexivity|exact IH]. Qed.

Lemma remaining_none (pool : list obj) :
  remaining (map VObject pool) pool = [].
Proof.
  unfold remaining.
  assert (H : forall sub, incl sub pool ->
                filter (fun tx => negb (includes (map keyOf (map VObject pool))
                                                 (pendingKey tx))) sub = []).
  { induction sub as [|tx sub IH]; intros Hincl; [reflexivity|].
    simpl.
    assert (Hin : includes (map keyOf (map VObject pool)) (pendingKey tx) = true).
    { apply includes_In. rewrite pendingKey_keyOf.
      apply in_map, in_map. apply Hincl. now left. }
    rewrite Hin. simpl. apply IH. intros x Hx. apply Hincl. now right. }
  apply H, incl_refl.
Qed.

Lemma stamped_index (st : State) (block : obj) (tipHash : value) :
  get (stamped st block tipHash) "index"
  = VNum (Z.of_nat (List.length (chain st))).
Proof.
  unfold stamped. destruct (negb _).
  - rewrite get_set_other by discriminate. apply get_set_same.
  - apply get_set_same.
Qed.

Lemma stamped_previousHash (st : State) (block : obj) (tipHash : value) :
  get block "previousHash" = tipHash ->
  get (stamped st block tipHash) "previousHash" = tipHash.
Proof.
  intros H. unfold stamped. destruct (negb _).
  - apply get_set_same.
  - now rewrite get_set_other by discriminate.
Qed.

Lemma last_cons (rest : list obj) :
  forall x d, last (x :: rest) d = last rest x.
Proof.
  induction rest as [|y rest IH]; intros x d; [reflexivity|].
  change (last (x :: y :: rest) d) with (last (y :: rest) d).
  now rewrite !IH.
Qed.

Lemma linksValid_snoc (rest : list obj) (b : obj) :
  forall previousBlock,
    linksValid previousBlock (rest ++ [b])
    = linksValid previousBlock rest
      && (strict_eq (get b "previousHash")
                    (get (last rest previousBlock) "hash")
          && isValidBlockStructure b).
Proof.
  induction rest as [|x rest IH]; intros prev.
  - simpl. destruct (strict_eq _ _); [|reflexivity].
    now destruct (isValidBlockStructure b).
  - change ((x :: rest) ++ [b]) with (x :: (rest ++ [b])).
    cbn [linksValid].
    destruct (strict_eq (get x "previousHash") (get prev "hash"));
      [|reflexivity].
    destruct (isValidBlockStructure x); [|reflexivity].
    cbn [negb]. rewrite IH. now rewrite last_cons.
Qed.

Lemma tip_is_last (g : obj) (rest : list obj) :
  nth_error (g :: rest) (List.length (g :: rest) - 1) = Some (last rest g).
Proof.
  revert g. induction rest as [|x rest IH]; intros g; [reflexivity|].
  specialize (IH x). simpl in IH. rewrite Nat.sub_0_r in IH.
  simpl List.length. rewrite Nat.sub_succ, Nat.sub_0_r.
  change (nth_error (g :: x :: rest) (S (List.length rest)))
    with (nth_error (x :: rest) (List.length rest)).
  rewrite IH. now rewrite last_cons.
Qed.

Lemma loopValid_snoc (c : list obj) (b tip : obj) :
  nth_error c (List.length c - 1) = Some tip ->
  loopValid (c ++ [b])
  = loopValid c
    && (strict_eq (get b "previousHash") (get tip "hash")
        && isValidBlockStructure b).
Proof.
  destruct c as [|g rest]; [discriminate|].
  rewrite tip_is_last. intros H. injection H as <-.
  apply linksValid_snoc.
Qed.

Lemma tryProduce_unfolded (address : string) (now : Z)
      (blockchain : State) (consensus : DPoS.State) :
  Node.tryProduce address now blockchain consensus
  = match getLatestBlock blockchain with
    | None => (Throw TypeError, (blockchain, consensus))
    | Some latestBlock =>
        let made :=
          Producer.createBlock now
            (VArray (map VObject (currentTransactions blockchain)))
            (get latestBlock "hash") (VString address)
            (VString "DEMO_PRIVATE_KEY") consensus in
        let added :=
          addBlock (fst made) (VString address)
                   (get (fst made) "signature") blockchain in
        (fst added, (snd added, snd made))
    end.
Proof.
  unfold Node.tryProduce.
  destruct (getLatestBlock blockchain) as [latestBlock|]; [|reflexivity].
  destruct (Producer.createBlock _ _ _ _ _ _) as [newBlock consensus'].
  cbn [fst snd].
  now destruct (addBlock newBlock _ _ blockchain).
Qed.

(** The instances after a tick that finds transactions pending and the
    slot time elapsed. *)
Lemma tick_run (address : string) (checked now : Z)
      (blockchain : State) (consensus : DPoS.State) (tip : obj) :
  getLatestBlock blockchain = Some tip ->
  currentTransactions blockchain <> [] ->
  Producer.isTimeForNextBlock checked consensus = true ->
  let made :=
    Producer.createBlock now
      (VArray (map VObject (currentTransactions blockchain)))
      (get tip "hash") (VString address) (VString "DEMO_PRIVATE_KEY")
      consensus in
  Node.tick address checked now blockchain consensus
  = (with_difficulty
       (adjusted (blockTime blockchain) (difficulty blockchain)
                 (js_sub (VNum now) (get tip "timestamp")))
       (with_currentTransactions []
          (with_chain
             (chain blockchain
              ++ [stamped blockchain (fst made) (get tip "hash")])
             blockchain)),
     snd made).
Proof.
  intros Htip Hpool Hdue made. unfold Node.tick. rewrite Hdue.
  assert (Hsome : (0 <? List.length (currentTransactions blockchain))%nat
                  = true).
  { destruct (currentTransactions blockchain); [contradiction|reflexivity]. }
  rewrite Hsome. cbn [andb].
  rewrite tryProduce_unfolded, Htip. fold made. cbn [snd].
  rewrite (addBlock_run (fst made) _ _ blockchain tip Htip).
  change (get (fst made) "transactions")
    with (VArray (map VObject (currentTransactions blockchain))).
  cbv iota. rewrite defined_objects, remaining_none.
  rewrite (adjustDifficulty_pushed blockchain tip _ _ Htip).
  rewrite stamped_other by discriminate.
  reflexivity.
Qed.

(** X17.  A tick that finds transactions pending and the slot time
    elapsed appends one block: it holds all the pending transactions,
    carries the node's address as validator, the tip's hash as previous
    hash and the length of the chain as index; the pending pool is empty
    afterwards and the clock reading is the new last block time. *)
Theorem tick_produces_block (address : string) (checked now : Z)
        (blockchain : State) (consensus : DPoS.State) :
  reachable blockchain ->
  currentTransactions blockchain <> [] ->
  Producer.isTimeForNextBlock checked consensus = true ->
  let after := Node.tick address checked now blockchain consensus in
  exists tip block : obj,
    getLatestBlock blockchain = Some tip
    /\ chain (fst after) = chain blockchain ++ [block]
    /\ get block "index" = VNum (Z.of_nat (List.length (chain blockchain)))
    /\ get block "timestamp" = VNum now
    /\ get block "transactions"
       = VArray (map VObject (currentTransactions blockchain))
    /\ get block "previousHash" = get tip "hash"
    /\ get block "validator" = VString address
    /\ currentTransactions (fst after) = []
    /\ DPoS.lastBlockTime (snd after) = now.
Proof.
  intros Hreach Hpool Hdue after. subst after.
  destruct (reachable_admissible blockchain Hreach) as [Hc _].
  destruct (getLatestBlock_some blockchain Hc) as [tip Htip].
  rewrite (tick_run address checked now blockchain consensus tip
                    Htip Hpool Hdue).
  eexists tip, _. split; [exact Htip|]. split; [reflexivity|].
  split; [apply stamped_index|].
  split; [now rewrite stamped_other by discriminate|].
  split; [now rewrite stamped_other by discriminate|].
  split; [now apply stamped_previousHash|].
  split; [now rewrite stamped_other by discriminate|].
  split; reflexivity.
Qed.

Lemma tick_produces_block_witness :
  currentTransactions
    (fst (Node.tick "delegate-1" 3000 3000 ChainScenario.nodeWithTransfer
                    (DPoS.constructor None None None)))
  = []
  /\ List.length
       (chain (fst (Node.tick "delegate-1" 3000 3000
                              ChainScenario.nodeWithTransfer
                              (DPoS.constructor None None None))))
     = 2%nat.
Proof.
  destruct (tick_produces_block "delegate-1" 3000 3000
              ChainScenario.nodeWithTransfer
              (DPoS.constructor None None None)
              (reach_addTransaction _ _ (reach_constructor 0))
              ltac:(discriminate) eq_refl)
    as [tip [block [_ [Hchain [_ [_ [_ [_ [_ [Hpool _]]]]]]]]]].
  split; [exact Hpool|]. rewrite Hchain, length_app. reflexivity.
Defined.

(** X18.  If the local chain is valid and the hash of its tip is a
    string, it is still valid after a tick that produces a block. *)
Theorem tick_keeps_chain_valid (address : string) (checked now : Z)
        (blockchain : State) (consensus : DPoS.State) (tip : obj) :
  reachable blockchain ->
  isChainValid blockchain = true ->
  getLatestBlock blockchain = Some tip ->
  typeof (get tip "hash") = "string" ->
  currentTransactions blockchain <> [] ->
  Producer.isTimeForNextBlock checked consensus = true ->
  isChainValid (fst (Node.tick address checked now blockchain consensus))
  = true.
Proof.
  intros Hreach Hvalid Htip Hstring Hpool Hdue.
  rewrite (tick_run address checked now blockchain consensus tip
                    Htip Hpool Hdue).
  unfold isChainValid in *. cbn [fst chain with_difficulty
                                 with_currentTransactions with_chain].
  rewrite (loopValid_snoc _ _ tip Htip), Hvalid. cbn [andb].
  rewrite stamped_previousHash by reflexivity.
  unfold isValidBlockStructure.
  rewrite stamped_index, stamped_previousHash by reflexivity.
  rewrite !stamped_other by discriminate.
  rewrite Hstring.
  destruct (get tip "hash") as [| | | |h| |]; try discriminate Hstring.
  unfold strict_eq. cbn. now rewrite String.eqb_refl.
Qed.

Lemma tick_keeps_chain_valid_witness :
  isChainValid
    (fst (Node.tick "delegate-1" 3000 3000 ChainScenario.nodeWithTransfer
                    (DPoS.constructor None None None)))
  = true.
Proof.
  exact (tick_keeps_chain_valid "delegate-1" 3000 3000
           ChainScenario.nodeWithTransfer (DPoS.constructor None None None)
           (nth 0 (chain ChainScenario.node) [])
           (reach_addTransaction _ _ (reach_constructor 0))
           eq_refl eq_refl eq_refl ltac:(discriminate) eq_refl).
Defined.

End NodeExtras.
